(** * Verification of the GAN cube BLE client (pico/gan_mpy.py, pico/main.py)

    Shallow embedding of the codec (key derivation, dual-chunk CBC framing),
    the cube-state decoder (facelets bit-field parse, solved predicate,
    move-variant parse) and the parts of the BLE event handler and of the
    cooperative tick that own the command retry state.

    Bytes are 8-bit values held in [Z]; a Python [bytes] object is a
    [list Z].  Python indices that the source uses are [nat]. *)

From Stdlib Require Import ZArith String Ascii List Bool Lia.
Import ListNotations.
Open Scope Z_scope.

(* ------------------------------------------------------------------------ *)
(** ** Python helpers *)

Module Py.

(** [l[a:b]] for [0 <= a <= b]. *)
Definition slice {A} (l : list A) (a b : nat) : list A :=
  firstn (b - a) (skipn a l).

(** [l[a:b] = x] (slice assignment), for [0 <= a <= b <= len(l)]. *)
Definition setslice {A} (l : list A) (a b : nat) (x : list A) : list A :=
  firstn a l ++ x ++ skipn b l.

(** [l[i]] with Python's negative indices; [None] is an IndexError. *)
Definition getitem {A} (l : list A) (i : Z) : option A :=
  let n := Z.of_nat (length l) in
  if (0 <=? i) && (i <? n) then nth_error l (Z.to_nat i)
  else if (- n <=? i) && (i <? 0) then nth_error l (Z.to_nat (n + i))
  else None.

(** [l[i] = v] for an index known to be in range. *)
Fixpoint setitem {A} (l : list A) (i : nat) (v : A) : list A :=
  match l, i with
  | [], _ => []
  | _ :: t, O => v :: t
  | h :: t, S i' => h :: setitem t i' v
  end.

(** [range(n)] *)
Definition range (n : nat) : list Z := map Z.of_nat (seq 0 n).

Definition sum (l : list Z) : Z := fold_right Z.add 0 l.

(** [int.from_bytes(b, "little")] *)
Fixpoint from_bytes_little (b : list Z) : Z :=
  match b with
  | [] => 0
  | x :: t => x + 256 * from_bytes_little t
  end.

Definition xor_bytes (a b : list Z) : list Z := map (fun '(x, y) => Z.lxor x y) (combine a b).

Fixpoint list_Z_eqb (a b : list Z) : bool :=
  match a, b with
  | [], [] => true
  | x :: a', y :: b' => (x =? y) && list_Z_eqb a' b'
  | _, _ => false
  end.

End Py.

(* ------------------------------------------------------------------------ *)
(** ** The block cipher behind [ucryptolib.aes]

    [aes(key, 2, iv)] is a CBC-mode AES object.  The codec only ever
    encrypts or decrypts one 16-byte block with a fresh object, so what it
    needs of the library is a single-block cipher: [c_enc key block] and
    [c_dec key block].  The codec is written against any such cipher; AES-128
    itself (FIPS-197) is given below, to evaluate the codec on concrete data. *)

Record Cipher : Type := {
  c_enc : list Z -> list Z -> list Z;
  c_dec : list Z -> list Z -> list Z
}.

(** One CBC block with a freshly initialised IV. *)
Definition cbc_encrypt_block (A : Cipher) (key iv blk : list Z) : list Z :=
  c_enc A key (Py.xor_bytes blk iv).

Definition cbc_decrypt_block (A : Cipher) (key iv blk : list Z) : list Z :=
  Py.xor_bytes (c_dec A key blk) iv.

Module AES.

(** Multiplication in GF(2^8) modulo x^8+x^4+x^3+x+1. *)
Fixpoint gmul_aux (n : nat) (a b p : Z) : Z :=
  match n with
  | O => p
  | S n' =>
      let p' := if Z.odd b then Z.lxor p a else p in
      let a1 := Z.land (Z.shiftl a 1) 255 in
      let a2 := if Z.testbit a 7 then Z.lxor a1 27 else a1 in
      gmul_aux n' a2 (Z.shiftr b 1) p'
  end.

Definition gmul (a b : Z) : Z := gmul_aux 8 a b 0.

Fixpoint gpow (a : Z) (n : nat) : Z :=
  match n with O => 1 | S n' => gmul a (gpow a n') end.

(** Multiplicative inverse (0 maps to 0). *)
Definition ginv (a : Z) : Z := gpow a 254.

Definition rotl8 (x : Z) (n : Z) : Z :=
  Z.land (Z.lor (Z.shiftl x n) (Z.shiftr x (8 - n))) 255.

Definition sbox_calc (a : Z) : Z :=
  let b := ginv a in
  Z.lxor (Z.lxor (Z.lxor (Z.lxor (Z.lxor b (rotl8 b 1)) (rotl8 b 2)) (rotl8 b 3)) (rotl8 b 4)) 99.

Definition inv_sbox_calc (s : Z) : Z :=
  ginv (Z.lxor (Z.lxor (Z.lxor (rotl8 s 1) (rotl8 s 3)) (rotl8 s 6)) 5).

Definition sbox_table : list Z := Eval vm_compute in map sbox_calc (Py.range 256).
Definition inv_sbox_table : list Z := Eval vm_compute in map inv_sbox_calc (Py.range 256).

Definition sbox (a : Z) : Z := nth (Z.to_nat a) sbox_table 0.
Definition inv_sbox (a : Z) : Z := nth (Z.to_nat a) inv_sbox_table 0.

(** The state is the 16 input bytes; byte [r + 4c] is row [r], column [c]. *)
Definition at16 (s : list Z) (i : nat) : Z := nth i s 0.

Definition sub_bytes (s : list Z) : list Z := map sbox s.
Definition inv_sub_bytes (s : list Z) : list Z := map inv_sbox s.

Definition shift_rows (s : list Z) : list Z :=
  map (fun i => let r := (i mod 4)%nat in let c := (i / 4)%nat in
                at16 s (r + 4 * ((c + r) mod 4))) (seq 0 16).

Definition inv_shift_rows (s : list Z) : list Z :=
  map (fun i => let r := (i mod 4)%nat in let c := (i / 4)%nat in
                at16 s (r + 4 * ((c + 4 - r) mod 4))) (seq 0 16).

Definition mix_column (m : list (list Z)) (col : list Z) : list Z :=
  map (fun row => fold_left Z.lxor (map (fun '(k, x) => gmul k x) (combine row col)) 0) m.

Definition mc_matrix : list (list Z) :=
  [[2; 3; 1; 1]; [1; 2; 3; 1]; [1; 1; 2; 3]; [3; 1; 1; 2]].
Definition inv_mc_matrix : list (list Z) :=
  [[14; 11; 13; 9]; [9; 14; 11; 13]; [13; 9; 14; 11]; [11; 13; 9; 14]].

Definition mix_with (m : list (list Z)) (s : list Z) : list Z :=
  flat_map (fun c => mix_column m (Py.slice s (4 * c) (4 * c + 4))) (seq 0 4).

Definition mix_columns := mix_with mc_matrix.
Definition inv_mix_columns := mix_with inv_mc_matrix.

Definition rcon : list Z := [1; 2; 4; 8; 16; 32; 64; 128; 27; 54].

(** Key expansion into the 44 words of AES-128, each a list of 4 bytes. *)
Fixpoint expand (n : nat) (i : nat) (w : list (list Z)) : list (list Z) :=
  match n with
  | O => w
  | S n' =>
      let prev := nth (i - 1) w [] in
      let temp :=
        if (i mod 4 =? 0)%nat then
          let rot := skipn 1 prev ++ firstn 1 prev in
          let sub := map sbox rot in
          Py.xor_bytes sub [nth (i / 4 - 1) rcon 0; 0; 0; 0]
        else prev in
      expand n' (S i) (w ++ [Py.xor_bytes (nth (i - 4) w []) temp])
  end.

Definition key_words (key : list Z) : list (list Z) :=
  expand 40 4 (map (fun j => Py.slice key (4 * j) (4 * j + 4)) (seq 0 4)).

Definition round_key (ws : list (list Z)) (r : nat) : list Z :=
  concat (Py.slice ws (4 * r) (4 * r + 4)).

Definition add_round_key (s k : list Z) : list Z := Py.xor_bytes s k.

Definition encrypt (key blk : list Z) : list Z :=
  let ws := key_words key in
  let s0 := add_round_key blk (round_key ws 0) in
  let s9 := fold_left (fun s r =>
              add_round_key (mix_columns (shift_rows (sub_bytes s))) (round_key ws r))
              (seq 1 9) s0 in
  add_round_key (shift_rows (sub_bytes s9)) (round_key ws 10).

Definition decrypt (key blk : list Z) : list Z :=
  let ws := key_words key in
  let s0 := add_round_key blk (round_key ws 10) in
  let s9 := fold_left (fun s r =>
              inv_mix_columns (add_round_key (inv_sub_bytes (inv_shift_rows s)) (round_key ws r)))
              (rev (seq 1 9)) s0 in
  add_round_key (inv_sub_bytes (inv_shift_rows s9)) (round_key ws 0).

End AES.

Definition aes128 : Cipher := {| c_enc := AES.encrypt; c_dec := AES.decrypt |}.

(* ------------------------------------------------------------------------ *)
(** ** gan_mpy.py *)

Module Gan.

Definition BASE_KEY : list Z :=
  [1; 2; 66; 40; 49; 145; 22; 7; 32; 5; 24; 84; 66; 17; 18; 83].
Definition BASE_IV : list Z :=
  [17; 3; 50; 40; 33; 1; 118; 39; 32; 149; 120; 20; 50; 18; 2; 67].

(** [s.replace(':', '').replace('-', '')] *)
Definition strip_separators (s : list ascii) : list ascii :=
  filter (fun c => negb (Ascii.eqb c ":"%char) && negb (Ascii.eqb c "-"%char)) s.

(** [str.upper()] on ASCII text. *)
Definition upper_char (c : ascii) : ascii :=
  let n := nat_of_ascii c in
  if (97 <=? n)%nat && (n <=? 122)%nat then ascii_of_nat (n - 32) else c.

Definition upper (s : list ascii) : list ascii := map upper_char s.

(** Value of a hexadecimal digit ([None] for any other character). *)
Definition hex_digit (c : ascii) : option Z :=
  let n := nat_of_ascii c in
  if (48 <=? n)%nat && (n <=? 57)%nat then Some (Z.of_nat n - 48)
  else if (65 <=? n)%nat && (n <=? 70)%nat then Some (Z.of_nat n - 55)
  else if (97 <=? n)%nat && (n <=? 102)%nat then Some (Z.of_nat n - 87)
  else None.

(** [bytes.fromhex(s)]: ValueError ([None]) on an odd length or a
    non-hexadecimal character. *)
Fixpoint fromhex (s : list ascii) : option (list Z) :=
  match s with
  | [] => Some []
  | [_] => None
  | h :: l :: t =>
      match hex_digit h, hex_digit l, fromhex t with
      | Some a, Some b, Some r => Some ((16 * a + b) :: r)
      | _, _, _ => None
      end
  end.

(** [derive_key_iv_from_mac(mac_address)]: [None] is the ValueError
    "Invalid MAC/UUID format" (or the one raised by [bytes.fromhex]). *)
Definition derive_key_iv_from_mac (mac_address : string) : option (list Z * list Z) :=
  let mac_clean := upper (strip_separators (list_ascii_of_string mac_address)) in
  let salt :=
    if (length mac_clean =? 12)%nat then fromhex mac_clean
    else if (length mac_clean =? 32)%nat then fromhex (firstn 12 mac_clean)
    else None in
  match salt with
  | None => None
  | Some salt =>
      let step '(key, iv) i :=
        (Py.setitem key i ((nth i BASE_KEY 0 + nth i salt 0) mod 255),
         Py.setitem iv i ((nth i BASE_IV 0 + nth i salt 0) mod 255)) in
      Some (fold_left step (seq 0 6) (BASE_KEY, BASE_IV))
  end.

Section Codec.
Variable A : Cipher.

(** [_dec_last_first(src, key, iv)]; the cipher never raises in the model. *)
Definition _dec_last_first (src key iv : list Z) : list Z :=
  let n := length src in
  let buf := src in
  let buf :=
    if (16 <? n)%nat then
      let end_ := (n - 16)%nat in
      Py.setslice buf end_ (end_ + 16)
        (cbc_decrypt_block A key iv (Py.slice buf end_ (end_ + 16)))
    else buf in
  Py.setslice buf 0 16 (cbc_decrypt_block A key iv (Py.slice buf 0 16)).

(** [_dec_first_last(src, key, iv)] *)
Definition _dec_first_last (src key iv : list Z) : list Z :=
  let n := length src in
  let buf := src in
  let buf := Py.setslice buf 0 16 (cbc_decrypt_block A key iv (Py.slice buf 0 16)) in
  if (16 <? n)%nat then
    let end_ := (n - 16)%nat in
    Py.setslice buf end_ (end_ + 16)
      (cbc_decrypt_block A key iv (Py.slice buf end_ (end_ + 16)))
  else buf.

(** [d[0] == 0x55] for a non-empty [d] ([if d and d[0] == 0x55]). *)
Definition starts_55 (d : list Z) : bool :=
  match d with x :: _ => x =? 85 | [] => false end.

(** [decrypt_packet(pkt, key, iv)]; [None] is Python's [None]. *)
Definition decrypt_packet (pkt key iv : list Z) : option (list Z) :=
  let n := length pkt in
  if (n <? 16)%nat then None
  else if starts_55 pkt && (2 <=? n)%nat then Some pkt
  else
    let d1 := _dec_last_first pkt key iv in
    if starts_55 d1 then Some d1
    else
      let d2 := _dec_first_last pkt key iv in
      if starts_55 d2 then Some d2
      else Some d1.

(** [encrypt_packet(data, key, iv)] *)
Definition encrypt_packet (data key iv : list Z) : option (list Z) :=
  let n := length data in
  if (n <? 16)%nat then None
  else
    let buf := data in
    let buf := Py.setslice buf 0 16 (cbc_encrypt_block A key iv (Py.slice buf 0 16)) in
    let buf :=
      if (16 <? n)%nat then
        let end_off := (n - 16)%nat in
        Py.setslice buf end_off (end_off + 16)
          (cbc_encrypt_block A key iv (Py.slice buf end_off (end_off + 16)))
      else buf in
    Some buf.

End Codec.

End Gan.
(* ------------------------------------------------------------------------ *)
(** ** main.py: facelets decoder and solved predicate *)

Module Decoder.

(** A Python bit string of '0'/'1' characters, as booleans. *)
Definition bitstr := list bool.

Definition byte_bits (b : Z) : bitstr := map (fun k => Z.testbit b (7 - Z.of_nat k)) (seq 0 8).

(** [_bits_from_bytes(data)]: MSB first within each byte. *)
Definition _bits_from_bytes (data : list Z) : bitstr := flat_map byte_bits data.

(** [_bits_from_bytes_revbits(data)]: LSB first within each byte. *)
Definition _bits_from_bytes_revbits (data : list Z) : bitstr :=
  flat_map (fun b => rev (byte_bits b)) data.

Definition _reverse_bytes (data : list Z) : list Z := rev data.

Definition _swap_nibbles_bytes (data : list Z) : list Z :=
  map (fun b => Z.lor (Z.shiftl (Z.land b 15) 4) (Z.shiftr (Z.land b 240) 4)) data.

Definition _rotl1_per_byte (data : list Z) : list Z :=
  map (fun b => Z.lor (Z.land (Z.shiftl b 1) 255) (Z.land (Z.shiftr b 7) 1)) data.

(** [int(s, 2)] *)
Definition bin_value (s : bitstr) : Z :=
  fold_left (fun acc (b : bool) => 2 * acc + (if b then 1 else 0)) s 0.

(** [get_bits(bit_string, start_bit, num_bits)] for [start_bit >= 0]
    (every call site passes a non-negative start). *)
Definition get_bits (bit_string : bitstr) (start_bit num_bits : nat) : Z :=
  if (num_bits =? 0)%nat then 0
  else if (length bit_string <? start_bit + num_bits)%nat then -1
  else bin_value (Py.slice bit_string start_bit (start_bit + num_bits)).

(** (cp, co, ep, eo) *)
Definition arrays : Type := (list Z * list Z * list Z * list Z)%type.

(** [set(l) == set(range(n))] *)
Definition set_eq_range (l : list Z) (n : nat) : bool :=
  forallb (fun x => existsb (Z.eqb x) (Py.range n)) l &&
  forallb (fun k => existsb (Z.eqb k) l) (Py.range n).

(** [all(lo <= x <= hi for x in l)] *)
Definition all_between (lo hi : Z) (l : list Z) : bool :=
  forallb (fun x => (lo <=? x) && (x <=? hi)) l.

(** The derived last element of each array. *)
Definition complete (cp co ep eo : list Z) : arrays :=
  (cp ++ [28 - Py.sum cp],
   co ++ [(3 - Py.sum co mod 3) mod 3],
   ep ++ [66 - Py.sum ep],
   eo ++ [(2 - Py.sum eo mod 2) mod 2]).

(** The raw fields at the four field starts. *)
Definition fields (bits : bitstr) (cp_start co_start ep_start eo_start : nat)
  : list Z * list Z * list Z * list Z :=
  (map (fun i => get_bits bits (cp_start + i * 3) 3) (seq 0 7),
   map (fun i => get_bits bits (co_start + i * 2) 2) (seq 0 7),
   map (fun i => get_bits bits (ep_start + i * 4) 4) (seq 0 11),
   map (fun i => get_bits bits (eo_start + i) 1) (seq 0 11)).

Definition any_negative (l : list Z) : bool := existsb (fun v => v <? 0) l.

(** [_parse_facelets_arrays_from_bitstr(bit_string, base_shift_bits)].
    [min(l) >= 0 and max(l) <= k] is written [all_between 0 k l]. *)
Definition _parse_facelets_arrays_from_bitstr (bit_string : bitstr) (base_shift_bits : Z)
  : option arrays :=
  let cp_start := 40 + base_shift_bits in
  let co_start := 61 + base_shift_bits in
  let ep_start := 77 + base_shift_bits in
  let eo_start := 121 + base_shift_bits in
  if (cp_start <? 0) || (co_start <? 0) || (ep_start <? 0) || (eo_start <? 0) then None
  else if Z.of_nat (length bit_string) <? eo_start + 11 then None
  else
    let '(cp, co, ep, eo) :=
      fields bit_string (Z.to_nat cp_start) (Z.to_nat co_start)
                        (Z.to_nat ep_start) (Z.to_nat eo_start) in
    if any_negative cp || any_negative co || any_negative ep || any_negative eo then None
    else
      let '(cp, co, ep, eo) := complete cp co ep eo in
      if negb ((length cp =? 8)%nat && all_between 0 7 cp && set_eq_range cp 8) then None
      else if negb ((length co =? 8)%nat && all_between 0 2 co) then None
      else if negb ((length ep =? 12)%nat && all_between 0 11 ep && set_eq_range ep 12) then None
      else if negb ((length eo =? 12)%nat && all_between 0 1 eo) then None
      else Some (cp, co, ep, eo).

(** [_parse_facelets_canonical(clear)] *)
Definition _parse_facelets_canonical (clear : list Z) : option arrays :=
  if (length clear <? 17)%nat then None
  else _parse_facelets_arrays_from_bitstr (_bits_from_bytes clear) (-16).

Definition is_header_55_02 (clear : list Z) : bool :=
  (nth 0 clear 0 =? 85) && (nth 1 clear 0 =? 2).

(** [_parse_facelets_headered(clear)] *)
Definition _parse_facelets_headered (clear : list Z) : option arrays :=
  if (length clear <? 19)%nat || negb (is_header_55_02 clear) then None
  else
    let bits := _bits_from_bytes clear in
    let '(cp, co, ep, eo) := fields bits 40 61 77 121 in
    if any_negative cp || any_negative co || any_negative ep || any_negative eo then None
    else
      let '(cp, co, ep, eo) := complete cp co ep eo in
      if negb ((length cp =? 8)%nat && set_eq_range cp 8) then None
      else if negb ((length co =? 8)%nat && all_between 0 2 co) then None
      else if negb ((length ep =? 12)%nat && set_eq_range ep 12) then None
      else if negb ((length eo =? 12)%nat && all_between 0 1 eo) then None
      else Some (cp, co, ep, eo).

(** The bit-string variants of [_parse_facelets_with_variants], in order
    (their labels are diagnostic only and are left out). *)
Definition variants (clear : list Z) : list bitstr :=
  [ _bits_from_bytes clear;
    _bits_from_bytes (_reverse_bytes clear);
    _bits_from_bytes_revbits clear;
    _bits_from_bytes_revbits (_reverse_bytes clear);
    _bits_from_bytes (_swap_nibbles_bytes clear);
    _bits_from_bytes (_rotl1_per_byte clear);
    rev (_bits_from_bytes clear) ].

Definition base_shifts : list Z := [-48; -40; -32; -24; -16; -8; 0; 8; 16; 24].
Definition jitters : list Z := [-4; -3; -2; -1; 0; 1; 2; 3; 4].

Fixpoint first_some {X Y} (f : X -> option Y) (l : list X) : option Y :=
  match l with
  | [] => None
  | x :: t => match f x with Some y => Some y | None => first_some f t end
  end.

(** The unvalidated parse at the backend offsets ("default-unaligned"). *)
Definition default_unaligned (clear : list Z) : arrays :=
  let '(cp, co, ep, eo) := fields (_bits_from_bytes clear) 40 61 77 121 in
  complete cp co ep eo.

(** [_parse_facelets_with_variants(clear)]: the first validated parse over
    variants x base shifts x jitters, else the unvalidated default parse. *)
Definition _parse_facelets_with_variants (clear : list Z) : arrays :=
  let search :=
    first_some (fun bits =>
      first_some (fun base =>
        first_some (fun j => _parse_facelets_arrays_from_bitstr bits (base + j)) jitters)
        base_shifts)
      (variants clear) in
  match search with
  | Some p => p
  | None => default_unaligned clear
  end.

Definition _FACES_ORDER : list ascii := list_ascii_of_string "URFDLB".

Definition _CORNER_FACELET_MAP : list (list Z) :=
  [[8; 9; 20]; [6; 18; 38]; [0; 36; 47]; [2; 45; 11];
   [29; 26; 15]; [27; 44; 24]; [33; 53; 42]; [35; 17; 51]].

Definition _EDGE_FACELET_MAP : list (list Z) :=
  [[5; 10]; [7; 19]; [3; 37]; [1; 46]; [32; 16]; [28; 25];
   [30; 43]; [34; 52]; [23; 12]; [21; 41]; [50; 39]; [48; 14]].

Definition _SOLVED_FACELETS : string :=
  "UUUUUUUUURRRRRRRRRFFFFFFFFFDDDDDDDDDLLLLLLLLLBBBBBBBBB".

Definition obind {X Y} (o : option X) (f : X -> option Y) : option Y :=
  match o with Some x => f x | None => None end.

(** One sticker assignment of [_to_kociemba_facelets]:
    [facelets[MAP[i][(p + o[i]) % k]] = _FACES_ORDER[MAP[perm[i]][p] // 9]]. *)
Definition place (MAP : list (list Z)) (k : Z) (perm ori : list Z)
    (facelets : list ascii) (ip : nat * nat) : option (list ascii) :=
  let '(i, p) := ip in
  obind (Py.getitem ori (Z.of_nat i)) (fun o =>
  obind (Py.getitem MAP (Z.of_nat i)) (fun row =>
  obind (Py.getitem row ((Z.of_nat p + o) mod k)) (fun facelet_idx =>
  obind (Py.getitem perm (Z.of_nat i)) (fun pi =>
  obind (Py.getitem MAP pi) (fun row' =>
  obind (Py.getitem row' (Z.of_nat p)) (fun v =>
  obind (Py.getitem _FACES_ORDER (v / 9)) (fun face =>
  Some (Py.setitem facelets (Z.to_nat facelet_idx) face)))))))).

Definition pairs (n m : nat) : list (nat * nat) :=
  flat_map (fun i => map (fun p => (i, p)) (seq 0 m)) (seq 0 n).

(** [_to_kociemba_facelets(cp, co, ep, eo)]; [None] is an IndexError. *)
Definition _to_kociemba_facelets (p : arrays) : option string :=
  let '(cp, co, ep, eo) := p in
  let init := map (fun i => nth (i / 9) _FACES_ORDER "?"%char) (seq 0 54) in
  let corners := fold_left (fun acc ip => obind acc (fun f => place _CORNER_FACELET_MAP 3 cp co f ip))
                   (pairs 8 3) (Some init) in
  let edges := fold_left (fun acc ip => obind acc (fun f => place _EDGE_FACELET_MAP 2 ep eo f ip))
                   (pairs 12 2) corners in
  obind edges (fun f => Some (string_of_list_ascii f)).

(** The verdict on a parse: facelets string equal to the solved string. *)
Definition verdict (p : arrays) : bool :=
  match _to_kociemba_facelets p with
  | Some f => String.eqb f _SOLVED_FACELETS
  | None => false
  end.

(** [_is_solved_facelets(clear)] *)
Definition _is_solved_facelets (clear : list Z) : bool :=
  let '(parsed, body) :=
    if (19 <=? length clear)%nat && is_header_55_02 clear
    then (_parse_facelets_headered clear, skipn 2 clear)
    else (None, clear) in
  let parsed :=
    match parsed with
    | Some p => Some p
    | None => if (17 <=? length body)%nat then _parse_facelets_canonical body else None
    end in
  match parsed with
  | Some p => verdict p
  | None =>
      verdict (_parse_facelets_with_variants
                 (if (17 <=? length body)%nat then body else clear))
  end.

(** [_parse_move_variant02(clear)]: [Some (move, serial)] or [None]. *)
Definition move_table : list string :=
  ["B"; "B'"; "F"; "F'"; "U"; "U'"; "D"; "D'"; "R"; "R'"; "L"; "L'"]%string.

Definition _parse_move_variant02 (clear : list Z) : option (string * Z) :=
  if (length clear <? 16)%nat || negb (nth 0 clear 0 =? 85) || negb (nth 1 clear 0 =? 2)
  then None
  else
    let move_byte := nth 5 clear 0 in
    let res :=
      if 11 <? move_byte then
        let rev_ := firstn 2 clear ++ rev (skipn 2 clear) in
        let move_byte := nth 5 rev_ 0 in
        if 11 <? move_byte then None else Some (move_byte, rev_)
      else Some (move_byte, clear) in
    match res with
    | None => None
    | Some (move_byte, clear) =>
        let move := nth (Z.to_nat move_byte) move_table ""%string in
        let serial := Py.from_bytes_little (Py.slice clear 2 4) in
        Some (move, serial)
    end.

End Decoder.

(* ------------------------------------------------------------------------ *)
(** ** main.py: session globals, disconnect handler, command retry tick *)

Module Session.

(** [time.ticks_add] / [time.ticks_diff] of MicroPython (period 2^30). *)
Definition TICKS_PERIOD : Z := 2 ^ 30.
Definition ticks_add (a b : Z) : Z := Z.land (a + b) (TICKS_PERIOD - 1).
Definition ticks_diff (a b : Z) : Z :=
  Z.land (a - b + TICKS_PERIOD / 2) (TICKS_PERIOD - 1) - TICKS_PERIOD / 2.

(** The globals of the deferred facelets-request retry. *)
Record Dispatch : Type := {
  _facelets_retry_count : Z;
  _facelets_retry_next_ms : Z;
  _facelets_rate_next_ms : Z;
  _last_facelets_ms : Z;
  _last_write_ealready : bool
}.

(** The per-connection globals of main.py ([None] handles as [None]). *)
Record Globals : Type := {
  _conn : option Z;
  _connecting : bool;
  _rx_buf : list Z;
  _cmd_handle : option Z;
  _state_handle : option Z;
  _did_send_initial_facelets : bool;
  _state_cccd_enabled : bool;
  _initial_facelets_deadline_ms : Z;
  _svc_ranges : list (Z * Z);
  _char_queue : list (Z * Z);
  _notify_handles : list Z;
  _cccd_queue : list Z;
  _notify_queue : list (Z * Z * list Z);
  _char_discover_in_progress : bool;
  _ble_next_ok_ms : Z;
  _polling : bool;
  dispatch : Dispatch
}.

Definition set_dispatch (g : Globals) (d : Dispatch) : Globals :=
  {| _conn := _conn g; _connecting := _connecting g; _rx_buf := _rx_buf g;
     _cmd_handle := _cmd_handle g; _state_handle := _state_handle g;
     _did_send_initial_facelets := _did_send_initial_facelets g;
     _state_cccd_enabled := _state_cccd_enabled g;
     _initial_facelets_deadline_ms := _initial_facelets_deadline_ms g;
     _svc_ranges := _svc_ranges g; _char_queue := _char_queue g;
     _notify_handles := _notify_handles g; _cccd_queue := _cccd_queue g;
     _notify_queue := _notify_queue g;
     _char_discover_in_progress := _char_discover_in_progress g;
     _ble_next_ok_ms := _ble_next_ok_ms g; _polling := _polling g;
     dispatch := d |}.

Definition is_some {X} (o : option X) : bool := match o with Some _ => true | None => false end.

(** [_irq] on [_IRQ_PERIPHERAL_DISCONNECT] with [conn_handle]; the boolean
    says whether scanning is restarted ([ble.gap_scan]). *)
Definition on_disconnect (conn_handle : Z) (g : Globals) : Globals * bool :=
  match _conn g with
  | Some c =>
      if c =? conn_handle then
        let d := dispatch g in
        ({| _conn := None; _connecting := false; _rx_buf := [];
            _cmd_handle := None; _state_handle := None;
            _did_send_initial_facelets := false;
            _state_cccd_enabled := false;
            _initial_facelets_deadline_ms := 0;
            _svc_ranges := []; _char_queue := []; _notify_handles := [];
            _cccd_queue := _cccd_queue g;
            _notify_queue := _notify_queue g;
            _char_discover_in_progress := false;
            _ble_next_ok_ms := 0; _polling := _polling g;
            dispatch := {| _facelets_retry_count := 0;
                           _facelets_retry_next_ms := 0;
                           _facelets_rate_next_ms := 0;
                           _last_facelets_ms := _last_facelets_ms d;
                           _last_write_ealready := _last_write_ealready d |} |},
         _polling g)
      else (g, false)
  | None => (g, false)
  end.

(** What [ble.gattc_write] does on the command characteristic. *)
Inductive write_result : Type :=
  | WriteOk        (* the write is issued *)
  | WriteBusy      (* raises EALREADY (errno 114) *)
  | WriteError.    (* raises anything else, or encryption fails *)

(** [send_request_facelets()] through [_send_command_payload]: returns
    [ok] and the new [_last_write_ealready] (set on EALREADY only). *)
Definition send_request_facelets (w : write_result) (ealready : bool) : bool * bool :=
  match w with
  | WriteOk => (true, ealready)
  | WriteBusy => (false, true)
  | WriteError => (false, ealready)
  end.

(** The "deferred facelets write retries" block of [_poll_tick] at time
    [now_ms]; the boolean says whether a write was attempted. *)
Definition retry_block (now_ms : Z) (w : write_result) (g : Globals) (d : Dispatch)
  : Dispatch * bool :=
  if is_some (_conn g) && is_some (_cmd_handle g) && (0 <? _facelets_retry_count d) then
    if 0 <=? ticks_diff now_ms (_facelets_retry_next_ms d) then
      if negb (_ble_next_ok_ms g =? 0) && (ticks_diff now_ms (_ble_next_ok_ms g) <? 0) then
        ({| _facelets_retry_count := _facelets_retry_count d;
            _facelets_retry_next_ms := _ble_next_ok_ms g;
            _facelets_rate_next_ms := _facelets_rate_next_ms d;
            _last_facelets_ms := _last_facelets_ms d;
            _last_write_ealready := _last_write_ealready d |}, false)
      else
        let '(ok, ealready) := send_request_facelets w (_last_write_ealready d) in
        let '(delay, count) :=
          if negb ok && ealready then (40, _facelets_retry_count d)
          else (200, _facelets_retry_count d - 1) in
        ({| _facelets_retry_count := count;
            _facelets_retry_next_ms := ticks_add now_ms delay;
            _facelets_rate_next_ms := _facelets_rate_next_ms d;
            _last_facelets_ms := _last_facelets_ms d;
            _last_write_ealready := false |}, true)
    else (d, false)
  else (d, false).

(** [_schedule_facelets_poll(delay_ms)], with [time.ticks_ms()] = [now_ms]. *)
Definition _schedule_facelets_poll (now_ms delay_ms : Z) (g : Globals) (d : Dispatch) : Dispatch :=
  if ticks_diff now_ms (_facelets_rate_next_ms d) <? 0 then d
  else
    let count := if _facelets_retry_count d <=? 0 then 1 else _facelets_retry_count d in
    let target := ticks_add now_ms delay_ms in
    let target :=
      if negb (_ble_next_ok_ms g =? 0) && (0 <? ticks_diff (_ble_next_ok_ms g) target)
      then _ble_next_ok_ms g else target in
    let next :=
      if (_facelets_retry_next_ms d =? 0) || (ticks_diff (_facelets_retry_next_ms d) now_ms <? 0)
      then target else _facelets_retry_next_ms d in
    {| _facelets_retry_count := count;
       _facelets_retry_next_ms := next;
       _facelets_rate_next_ms := ticks_add now_ms 250;
       _last_facelets_ms := _last_facelets_ms d;
       _last_write_ealready := _last_write_ealready d |}.

(** The "proactively poll once" block of [_poll_tick]. [_poll_tick]
    assigns [_last_facelets_ms] in this block but does not declare it
    [global], so the name is a local of [_poll_tick], unbound when the block
    starts. With a connection and a command handle, the test
    [_last_facelets_ms == 0] reads it and raises [UnboundLocalError], which
    the block's [except Exception: pass] swallows; without them the block
    does nothing either. Either way the dispatch state is left as it was. *)
Definition proactive_poll (now_ms : Z) (g : Globals) (d : Dispatch) : Dispatch :=
  if is_some (_conn g) && is_some (_cmd_handle g) then d (* UnboundLocalError, swallowed *)
  else d.

(** The tail of [_poll_tick]: the retry block, then the proactive poll.
    The earlier stages of the tick (UI, buttons, alarm, CCCD enabling,
    initial-facelets scheduling, notification draining) are not modelled. *)
Definition poll_tick_tail (now_ms : Z) (w : write_result) (g : Globals) : Globals * bool :=
  let '(d, attempted) := retry_block now_ms w g (dispatch g) in
  (set_dispatch g (proactive_poll now_ms g d), attempted).

(** Successive ticks of the main loop, the [i]-th at time [now_ms] with
    write outcome [w]; the count is the number of writes attempted. *)
Fixpoint poll_ticks (evs : list (Z * write_result)) (g : Globals) : Globals * nat :=
  match evs with
  | [] => (g, 0%nat)
  | (now_ms, w) :: rest =>
      let '(g1, attempted) := poll_tick_tail now_ms w g in
      let '(g2, n) := poll_ticks rest g1 in
      (g2, ((if attempted then 1 else 0) + n)%nat)
  end.

(** [g] after [vh = _cccd_queue.pop(0)] and [_enable_notify(_conn, vh)]:
    the queue tail, the cooldown [time.ticks_add(time.ticks_ms(), 60)] with
    [time.ticks_ms()] = [t], and [_state_cccd_enabled] set when [vh] is the
    STATE handle. *)
Definition cccd_pop (g : Globals) (vh : Z) (rest : list Z) (t : Z) : Globals :=
  {| _conn := _conn g; _connecting := _connecting g; _rx_buf := _rx_buf g;
     _cmd_handle := _cmd_handle g; _state_handle := _state_handle g;
     _did_send_initial_facelets := _did_send_initial_facelets g;
     _state_cccd_enabled :=
       match _state_handle g with
       | Some s => if vh =? s then true else _state_cccd_enabled g
       | None => _state_cccd_enabled g
       end;
     _initial_facelets_deadline_ms := _initial_facelets_deadline_ms g;
     _svc_ranges := _svc_ranges g; _char_queue := _char_queue g;
     _notify_handles := _notify_handles g; _cccd_queue := rest;
     _notify_queue := _notify_queue g;
     _char_discover_in_progress := _char_discover_in_progress g;
     _ble_next_ok_ms := ticks_add t 60; _polling := _polling g;
     dispatch := dispatch g |}.

(** One pass of the "Enable up to 2 CCCDs per tick" loop of [_poll_tick] at
    time [now_ms], [t] being the clock read by [_enable_notify]: [None]
    when the loop stops, else the new globals and the CCCD write
    [(conn_handle, value_handle + 1)] issued by [ble.gattc_write]. *)
Definition cccd_step (now_ms t : Z) (g : Globals) : option (Globals * (Z * Z)) :=
  match _cccd_queue g, _conn g with
  | vh :: rest, Some c =>
      if _did_send_initial_facelets g && (0 <? _facelets_retry_count (dispatch g)) then None
      else if negb (_ble_next_ok_ms g =? 0) && (ticks_diff now_ms (_ble_next_ok_ms g) <? 0)
      then None
      else Some (cccd_pop g vh rest t, (c, vh + 1))
  | _, _ => None
  end.

(** The CCCD loop of [_poll_tick] ([cccd_processed < 2]), with the clock
    reads [t1] and [t2] of its two [_enable_notify] calls; returns the
    globals and the CCCD writes in order. *)
Definition cccd_stage (now_ms t1 t2 : Z) (g : Globals) : Globals * list (Z * Z) :=
  match cccd_step now_ms t1 g with
  | None => (g, [])
  | Some (g1, w1) =>
      match cccd_step now_ms t2 g1 with
      | None => (g1, [w1])
      | Some (g2, w2) => (g2, [w1; w2])
      end
  end.

End Session.

(* ------------------------------------------------------------------------ *)
(** ** Concrete data *)

(** [KNOWN_MAC] of main.py and the session keys it derives. *)
Definition KNOWN_MAC : string := "CF:AA:79:C9:96:9C".

Definition known_keys : list Z * list Z :=
  match Gan.derive_key_iv_from_mac KNOWN_MAC with Some kv => kv | None => ([], []) end.
Definition known_key : list Z := fst known_keys.
Definition known_iv : list Z := snd known_keys.

(** A 19-byte facelets frame of the solved cube, fields at the backend
    offsets (CP@40, CO@61, EP@77, EO@121). *)
Definition solved_frame : list Z :=
  [85; 2; 0; 0; 0; 5; 57; 112; 0; 0; 9; 26; 43; 60; 77; 0; 0; 0; 0].

(** The same field contents placed 24 bits earlier (starting at the first
    bit after the header), the rest zero. *)
Definition early_fields_frame : list Z :=
  [85; 2; 5; 57; 112; 0; 0; 9; 26; 43; 60; 77; 0; 0; 0; 0; 0; 0; 0].

(** Ciphertexts starting with the 0x55 marker, followed by zeros. *)
Definition marker_block : list Z := 85 :: repeat 0 15.
Definition marker_ct32 : list Z := 85 :: repeat 0 31.

(** The 16-byte payload that AES-128-CBC under the known session keys
    encrypts to [marker_block]. *)
Definition marker_preimage : list Z :=
  [113; 242; 203; 54; 48; 11; 126; 146; 73; 99; 66; 161; 199; 13; 201; 172].

(** A cipher that, under [key], encrypts [b] to one block and decrypts that
    block back to [b]. *)
Definition block_invertible (A : Cipher) (key b : list Z) : Prop :=
  length (c_enc A key b) = 16%nat /\ c_dec A key (c_enc A key b) = b.

(** The normalised address of [derive_key_iv_from_mac]: separators removed,
    upper-cased. *)
Definition mac_clean (mac : string) : list ascii :=
  Gan.upper (Gan.strip_separators (list_ascii_of_string mac)).

Definition is_hex (c : ascii) : bool :=
  match Gan.hex_digit c with Some _ => true | None => false end.

Definition hex_value (c : ascii) : Z :=
  match Gan.hex_digit c with Some v => v | None => 0 end.

(** Salt byte [i] read from the hex characters [2i] and [2i+1]. *)
Definition salt_byte (clean : list ascii) (i : nat) : Z :=
  16 * hex_value (nth (2 * i) clean "0"%char) + hex_value (nth (2 * i + 1) clean "0"%char).

(** An address of 32 characters whose first 12 are hexadecimal and whose
    remaining 20 are not. *)
Definition non_hex_identifier : string := "AABBCCDDEEFFGGGGGGGGGGGGGGGGGGGG".

(** A connected session with a command handle, one deferred facelets retry
    due, a CCCD still to enable and a notification still queued. *)
Definition connected_session : Session.Globals :=
  {| Session._conn := Some 0; Session._connecting := false; Session._rx_buf := [];
     Session._cmd_handle := Some 5; Session._state_handle := Some 7;
     Session._did_send_initial_facelets := true;
     Session._state_cccd_enabled := true;
     Session._initial_facelets_deadline_ms := 0;
     Session._svc_ranges := [(1, 20)]; Session._char_queue := [];
     Session._notify_handles := [7; 13]; Session._cccd_queue := [13];
     Session._notify_queue := [(0, 7, [85; 2])];
     Session._char_discover_in_progress := false;
     Session._ble_next_ok_ms := 0; Session._polling := true;
     Session.dispatch :=
       {| Session._facelets_retry_count := 1;
          Session._facelets_retry_next_ms := 0;
          Session._facelets_rate_next_ms := 0;
          Session._last_facelets_ms := 0;
          Session._last_write_ealready := false |} |}.

Definition is_busy (w : Session.write_result) : bool :=
  match w with Session.WriteBusy => true | _ => false end.

(* ------------------------------------------------------------------------ *)
(** ** main.py: addresses, connection, notifications, alarm *)

Module Main.

(** The BLE and audio operations the handlers issue. *)
Inductive ble_op : Type :=
  | GapScanStop                  (* ble.gap_scan(None) *)
  | GapScanStart                 (* ble.gap_scan(0, 30000, 30000, True) *)
  | GapConnect (addr : list Z)   (* ble.gap_connect(addr_type, bytes(addr)) *)
  | GapDisconnect (h : Z)        (* ble.gap_disconnect(h) *)
  | DiscoverServices (h : Z)     (* ble.gattc_discover_services(h) *)
  | AudioStop.                   (* _audio.stop() *)

Definition HEX_UPPER : list ascii := list_ascii_of_string "0123456789ABCDEF".

Definition hex_char (d : Z) : ascii := nth (Z.to_nat d) HEX_UPPER "0"%char.

(** ["{:02X}".format(x)] for a byte [x] (an element of [bytes], 0..255). *)
Definition fmt02X (x : Z) : list ascii := [hex_char (x / 16); hex_char (x mod 16)].

(** [sep.join(l)] *)
Fixpoint join (sep : list ascii) (l : list (list ascii)) : list ascii :=
  match l with
  | [] => []
  | [x] => x
  | x :: t => x ++ sep ++ join sep t
  end.

(** [_mac_norm_from_le(addr_le)]: the bytes from last to first. *)
Definition _mac_norm_from_le (addr_le : list Z) : string :=
  string_of_list_ascii (join [":"%char] (map fmt02X (rev addr_le))).

(** [_mac_direct(addr_le)] *)
Definition _mac_direct (addr_le : list Z) : string :=
  string_of_list_ascii (join [":"%char] (map fmt02X addr_le)).

(** [_norm(s)] *)
Definition _norm (s : string) : string :=
  string_of_list_ascii (Gan.upper (Gan.strip_separators (list_ascii_of_string s))).

Definition set_link (g : Session.Globals) (conn : option Z) (connecting polling : bool)
  : Session.Globals :=
  {| Session._conn := conn; Session._connecting := connecting;
     Session._rx_buf := Session._rx_buf g;
     Session._cmd_handle := Session._cmd_handle g; Session._state_handle := Session._state_handle g;
     Session._did_send_initial_facelets := Session._did_send_initial_facelets g;
     Session._state_cccd_enabled := Session._state_cccd_enabled g;
     Session._initial_facelets_deadline_ms := Session._initial_facelets_deadline_ms g;
     Session._svc_ranges := Session._svc_ranges g; Session._char_queue := Session._char_queue g;
     Session._notify_handles := Session._notify_handles g;
     Session._cccd_queue := Session._cccd_queue g;
     Session._notify_queue := Session._notify_queue g;
     Session._char_discover_in_progress := Session._char_discover_in_progress g;
     Session._ble_next_ok_ms := Session._ble_next_ok_ms g; Session._polling := polling;
     Session.dispatch := Session.dispatch g |}.

(** The scan-result branch of [_irq] for an advertisement from [addr]. *)
Definition on_scan_result (addr : list Z) (g : Session.Globals) : Session.Globals * list ble_op :=
  if (String.eqb (_norm (_mac_norm_from_le addr)) (_norm KNOWN_MAC) ||
      String.eqb (_norm (_mac_direct addr)) (_norm KNOWN_MAC))
     && negb (Session.is_some (Session._conn g)) && negb (Session._connecting g)
  then (set_link g (Session._conn g) true (Session._polling g), [GapScanStop; GapConnect addr])
  else (g, []).

(** The globals beyond [Session.Globals] that the handlers below use.
    [_audio] is [true] for an [AudioAlarm] object, [false] for [None]. *)
Record Node : Type := {
  globals : Session.Globals;
  _key : option (list Z);
  _iv : option (list Z);
  _alarm_on : bool;
  _audio : bool;
  _last_solved : option bool
}.

Definition with_globals (n : Node) (g : Session.Globals) : Node :=
  {| globals := g; _key := _key n; _iv := _iv n; _alarm_on := _alarm_on n;
     _audio := _audio n; _last_solved := _last_solved n |}.

Definition set_last_solved (n : Node) (b : bool) : Node :=
  {| globals := globals n; _key := _key n; _iv := _iv n; _alarm_on := _alarm_on n;
     _audio := _audio n; _last_solved := Some b |}.

Definition set_alarm_on (n : Node) (b : bool) : Node :=
  {| globals := globals n; _key := _key n; _iv := _iv n; _alarm_on := b;
     _audio := _audio n; _last_solved := _last_solved n |}.

(** [stop_cube_polling()]; [ble] exists whenever a handler runs. *)
Definition stop_cube_polling (n : Node) : Node * list ble_op :=
  let g := globals n in
  let ops1 := if Session._polling g then [GapScanStop] else [] in
  let ops2 := match Session._conn g with Some c => [GapDisconnect c] | None => [] end in
  (with_globals n (set_link g None false false), ops1 ++ ops2).

(** [_on_notify(conn_handle, value_handle, data)] at [time.ticks_ms()] =
    [now_ms].  The final "track facelets serial" block assigns
    [_last_facelets_serial] and [_last_facelets_ms] without a [global]
    declaration, so both are locals of [_on_notify]: reading
    [_last_facelets_serial] raises UnboundLocalError, which the block's
    [except] swallows, and no global changes there. *)
Definition on_notify (A : Cipher) (now_ms conn_handle : Z) (data : list Z) (n : Node)
  : Node * list ble_op :=
  let g := globals n in
  if negb (match Session._conn g with Some c => c =? conn_handle | None => false end) then (n, [])
  else
  match _key n, _iv n with
  | Some key, Some iv =>
    if (length key =? 0)%nat || (length iv =? 0)%nat then (n, [])
    else
    let chunk := data in
    if (length chunk <? 16)%nat then (n, [])
    else
    match Gan.decrypt_packet A chunk key iv with
    | None => (n, [])
    | Some clear =>
        let '(n1, ops1) :=
          if (17 <=? length clear)%nat then
            let solved := Decoder._is_solved_facelets clear in
            if match _last_solved n with None => true | Some b => negb (Bool.eqb solved b) end then
              let n := set_last_solved n solved in
              if solved then
                if _alarm_on n && _audio n then
                  let '(n, ops) := stop_cube_polling (set_alarm_on n false) in (n, AudioStop :: ops)
                else (n, [])
              else (n, [])
            else (n, [])
          else (n, []) in
        let g1 := globals n1 in
        let scheduled :=
          with_globals n1
            (Session.set_dispatch g1 (Session._schedule_facelets_poll now_ms 150 g1 (Session.dispatch g1))) in
        let n2 :=
          if (16 <=? length clear)%nat && (nth 0 clear 0 =? 85) then
            if (nth 1 clear 0 =? 2) && (length clear =? 16)%nat then scheduled
            else if nth 1 clear 0 =? 1 then scheduled
            else n1
          else n1 in
        (n2, ops1)
    end
  | _, _ => (n, [])
  end.

(** The connect branch of [_irq]; a failed key derivation is caught and
    leaves [_key] and [_iv] as they were. *)
Definition on_connect (conn_handle : Z) (addr : list Z) (n : Node) : Node * list ble_op :=
  let g := globals n in
  match Session._conn g with
  | Some _ => (n, [])
  | None =>
      let d := Session.dispatch g in
      let g' :=
        {| Session._conn := Some conn_handle; Session._connecting := Session._connecting g;
           Session._rx_buf := [];
           Session._cmd_handle := None; Session._state_handle := None;
           Session._did_send_initial_facelets := false;
           Session._state_cccd_enabled := false;
           Session._initial_facelets_deadline_ms := 0;
           Session._svc_ranges := []; Session._char_queue := []; Session._notify_handles := [];
           Session._cccd_queue := Session._cccd_queue g;
           Session._notify_queue := Session._notify_queue g;
           Session._char_discover_in_progress := false;
           Session._ble_next_ok_ms := 0; Session._polling := Session._polling g;
           Session.dispatch := {| Session._facelets_retry_count := 0;
                                  Session._facelets_retry_next_ms := 0;
                                  Session._facelets_rate_next_ms := 0;
                                  Session._last_facelets_ms := Session._last_facelets_ms d;
                                  Session._last_write_ealready := Session._last_write_ealready d |} |} in
      let '(key, iv) :=
        match Gan.derive_key_iv_from_mac (_mac_norm_from_le addr) with
        | Some (k, v) => (Some k, Some v)
        | None => (_key n, _iv n)
        end in
      ({| globals := g'; _key := key; _iv := iv; _alarm_on := _alarm_on n;
          _audio := _audio n; _last_solved := _last_solved n |},
       [DiscoverServices conn_handle])
  end.

(** The disconnect branch of [_irq] on the whole state. *)
Definition on_disconnect (conn_handle : Z) (n : Node) : Node * list ble_op :=
  let '(g, rescan) := Session.on_disconnect conn_handle (globals n) in
  (with_globals n g, if rescan then [GapScanStart] else []).

(** [set_alarm(h, m)]: the stored [_alarm_time]. *)
Definition set_alarm (h m : Z) : Z * Z := (h mod 24, m mod 60).

(** [set_alarm_in(seconds)] at local time [now_h:now_m:now_s]. *)
Definition set_alarm_in (now_h now_m now_s seconds : Z) : Z * Z :=
  let total := now_h * 3600 + now_m * 60 + now_s + seconds in
  let total := total mod 86400 in
  let h := total / 3600 in
  let m := (total mod 3600) / 60 in
  set_alarm h m.

End Main.

(** The address bytes of [KNOWN_MAC], in display order. *)
Definition KNOWN_MAC_BYTES : list Z := [207; 170; 121; 201; 150; 156].

(** A byte value, as held by [bytes] and [bytearray]. *)
Definition is_byte (b : Z) : Prop := 0 <= b < 256.

(** The shape every completed parse has: lengths 8, 8, 12, 12; the
    corner and edge permutation entries summing to 28 = 0+...+7 and
    66 = 0+...+11; the corner twists summing to a multiple of 3 and the
    edge flips to an even number. *)
Definition completed_invariant (p : Decoder.arrays) : Prop :=
  let '(cp, co, ep, eo) := p in
  length cp = 8%nat /\ length co = 8%nat /\ length ep = 12%nat /\ length eo = 12%nat /\
  Py.sum cp = 28 /\ Py.sum co mod 3 = 0 /\ Py.sum ep = 66 /\ Py.sum eo mod 2 = 0.

(** A facelets list as [_to_kociemba_facelets] builds it: 54 stickers,
    each a face letter of [_FACES_ORDER]. *)
Definition facelets_ok (f : list ascii) : Prop :=
  length f = 54%nat /\ Forall (fun c => In c Decoder._FACES_ORDER) f.

(** A one-block cipher that XORs the block with the key: a block cipher in
    the sense used by the codec, to instantiate its hypotheses. *)
Definition xor_cipher : Cipher :=
  {| c_enc := fun key b => Py.xor_bytes b key; c_dec := fun key b => Py.xor_bytes b key |}.

(** A session idle before a connection: no keys, alarm sounding. *)
Definition idle_node : Main.Node :=
  {| Main.globals := Main.set_link connected_session None false true;
     Main._key := None; Main._iv := None; Main._alarm_on := true; Main._audio := true;
     Main._last_solved := None |}.

(** [connected_session] with the known keys and the alarm sounding. *)
Definition alarm_node : Main.Node :=
  {| Main.globals := connected_session;
     Main._key := Some known_key; Main._iv := Some known_iv;
     Main._alarm_on := true; Main._audio := true; Main._last_solved := None |}.

(* ======================================================================== *)
(** * Properties *)

(** FIPS-197, appendix C.1. *)
Example aes_fips197_enc :
  AES.encrypt [0;1;2;3;4;5;6;7;8;9;10;11;12;13;14;15]
    [0;17;34;51;68;85;102;119;136;153;170;187;204;221;238;255]
  = [105;196;224;216;106;123;4;48;216;205;183;128;112;180;197;90].
Proof. vm_compute. reflexivity. Qed.

Example aes_fips197_dec :
  AES.decrypt [0;1;2;3;4;5;6;7;8;9;10;11;12;13;14;15]
    [105;196;224;216;106;123;4;48;216;205;183;128;112;180;197;90]
  = [0;17;34;51;68;85;102;119;136;153;170;187;204;221;238;255].
Proof. vm_compute. reflexivity. Qed.

Example aes_sbox_inverse :
  forallb (fun x => AES.inv_sbox (AES.sbox x) =? x) (Py.range 256) = true.
Proof. vm_compute. reflexivity. Qed.


(** The solved frame decodes to the identity state and is solved. *)
Example solved_frame_is_solved :
  Decoder._parse_facelets_headered solved_frame
    = Some (Py.range 8, repeat 0 8, Py.range 12, repeat 0 12)
  /\ Decoder._is_solved_facelets solved_frame = true.
Proof. vm_compute. split; reflexivity. Qed.

(** ** Move-variant frames *)

(** C4: for a 16-byte frame 55 02 ..., a move code (offset 5) of at most 11
    indexes the alphabet [B,B',F,F',U,U',D,D',R,R',L,L'] and bytes 2-3 read
    little-endian are the serial; a code above 11 makes the parser reverse
    every byte after the header and retry once; a code still above 11 after
    the reversal gives no move. *)
Theorem move_variant02_decoding :
  Decoder.move_table = ["B"; "B'"; "F"; "F'"; "U"; "U'"; "D"; "D'"; "R"; "R'"; "L"; "L'"]%string /\
  forall clear : list Z,
    length clear = 16%nat -> nth 0 clear 0 = 85 -> nth 1 clear 0 = 2 ->
    Decoder._parse_move_variant02 clear =
      (if nth 5 clear 0 <=? 11 then
         Some (nth (Z.to_nat (nth 5 clear 0)) Decoder.move_table ""%string,
               nth 2 clear 0 + 256 * nth 3 clear 0)
       else
         let rev_ := firstn 2 clear ++ rev (skipn 2 clear) in
         if nth 5 rev_ 0 <=? 11 then
           Some (nth (Z.to_nat (nth 5 rev_ 0)) Decoder.move_table ""%string,
                 nth 2 rev_ 0 + 256 * nth 3 rev_ 0)
         else None).
Proof.
  split; [reflexivity |].
  intros clear Hlen H0 H1.
  do 16 (destruct clear as [| ? clear]; [discriminate |]).
  destruct clear; [| discriminate].
  simpl in H0, H1 |- *. subst.
  unfold Decoder._parse_move_variant02. simpl.
  destruct (11 <? _) eqn:E1.
  - assert (E1' : (z4 <=? 11) = false) by (apply Z.ltb_lt in E1; apply Z.leb_gt; lia).
    rewrite E1'.
    destruct (11 <? z11) eqn:E2.
    + assert (E2' : (z11 <=? 11) = false) by (apply Z.ltb_lt in E2; apply Z.leb_gt; lia).
      rewrite E2'. reflexivity.
    + assert (E2' : (z11 <=? 11) = true) by (apply Z.ltb_ge in E2; apply Z.leb_le; lia).
      rewrite E2'. unfold Py.slice. simpl. now rewrite Z.add_0_r.
  - assert (E1' : (z4 <=? 11) = true) by (apply Z.ltb_ge in E1; apply Z.leb_le; lia).
    rewrite E1'. unfold Py.slice. simpl. now rewrite Z.add_0_r.
Qed.

(** Move code 11 is L'; code 12 with code 12 again after the reversal is
    unparseable. *)
Example move_code_boundary :
  Decoder._parse_move_variant02 [85;2;1;2;0;11;0;0;0;0;0;0;12;0;0;0] = Some ("L'"%string, 513) /\
  Decoder._parse_move_variant02 [85;2;1;2;0;12;0;0;0;0;0;0;3;0;7;9] = Some ("F'"%string, 1801) /\
  Decoder._parse_move_variant02 [85;2;1;2;0;12;0;0;0;0;0;0;12;0;7;9] = None.
Proof. vm_compute. repeat split. Qed.

(** ** Facelets frames *)

Lemma skipn_app_length {X} (pre l : list X) (s : nat) :
  skipn (length pre + s) (pre ++ l) = skipn s l.
Proof. induction pre; simpl; auto. Qed.

(** Reading a bit field past a prefix of the bit string. *)
Lemma get_bits_app (pre l : Decoder.bitstr) (s n : nat) :
  Decoder.get_bits (pre ++ l) (length pre + s) n = Decoder.get_bits l s n.
Proof.
  unfold Decoder.get_bits, Py.slice. rewrite List.length_app.
  destruct (n =? 0)%nat; [reflexivity |].
  replace (length pre + length l <? length pre + s + n)%nat with (length l <? s + n)%nat.
  - destruct (length l <? s + n)%nat; [reflexivity |].
    replace (length pre + s + n - (length pre + s))%nat with (s + n - s)%nat by lia.
    now rewrite skipn_app_length.
  - apply Bool.eq_true_iff_eq. rewrite !Nat.ltb_lt. lia.
Qed.

Lemma byte_bits_length (b : Z) : length (Decoder.byte_bits b) = 8%nat.
Proof. reflexivity. Qed.

Lemma bits_from_bytes_length (l : list Z) :
  length (Decoder._bits_from_bytes l) = (8 * length l)%nat.
Proof.
  induction l as [| b l IH]; [reflexivity |].
  unfold Decoder._bits_from_bytes in *. simpl. rewrite IH. lia.
Qed.

(** The fields of a headered frame are those of its body, 16 bits earlier. *)
Lemma fields_header (a b : Z) (body : list Z) :
  Decoder.fields (Decoder._bits_from_bytes (a :: b :: body)) 40 61 77 121
  = Decoder.fields (Decoder._bits_from_bytes body) 24 45 61 105.
Proof.
  set (pre := Decoder.byte_bits a ++ Decoder.byte_bits b).
  assert (Hb : Decoder._bits_from_bytes (a :: b :: body) = pre ++ Decoder._bits_from_bytes body)
    by reflexivity.
  assert (Hp : length pre = 16%nat) by reflexivity.
  unfold Decoder.fields. rewrite Hb.
  repeat f_equal; apply map_ext; intros i;
    match goal with |- Decoder.get_bits _ (?x + _) _ = _ =>
      replace x with (length pre + (x - 16))%nat by lia end;
    rewrite <- Nat.add_assoc, get_bits_app; reflexivity.
Qed.

(** [set(l) == set(range(n))] already bounds every element. *)
Lemma set_eq_range_bounds (l : list Z) (n : nat) (hi : Z) :
  hi = Z.of_nat n - 1 ->
  (Decoder.all_between 0 hi l && Decoder.set_eq_range l n) = Decoder.set_eq_range l n.
Proof.
  intros ->. unfold Decoder.set_eq_range, Decoder.all_between.
  destruct (forallb (fun x => existsb (Z.eqb x) (Py.range n)) l) eqn:E; simpl;
    [| now rewrite !andb_false_r].
  replace (forallb _ l) with true; [reflexivity |].
  symmetry. apply forallb_forall. intros x Hx.
  pose proof (proj1 (forallb_forall _ _) E x Hx) as Hr.
  apply existsb_exists in Hr as [y [Hy Hxy]]. apply Z.eqb_eq in Hxy. subst y.
  unfold Py.range in Hy. apply in_map_iff in Hy as [k [<- Hk]]. apply in_seq in Hk.
  apply andb_true_intro. split; [apply Z.leb_le | apply Z.leb_le]; lia.
Qed.

(** On a headered frame the canonical (headerless) parse of the body is the
    headered parse. *)
Lemma canonical_body_headered (a b : Z) (body : list Z) :
  (17 <= length body)%nat -> a = 85 -> b = 2 ->
  Decoder._parse_facelets_canonical body = Decoder._parse_facelets_headered (a :: b :: body).
Proof.
  intros Hl -> ->.
  unfold Decoder._parse_facelets_canonical, Decoder._parse_facelets_headered,
    Decoder._parse_facelets_arrays_from_bitstr.
  replace (length body <? 17)%nat with false by (symmetry; apply Nat.ltb_ge; lia).
  replace (length (85%Z :: 2%Z :: body) <? 19)%nat with false by (symmetry; apply Nat.ltb_ge; simpl; lia).
  simpl (negb _). simpl (Z.to_nat _).
  replace (Z.of_nat (length (Decoder._bits_from_bytes body)) <? 121 + -16 + 11) with false
    by (symmetry; apply Z.ltb_ge; rewrite bits_from_bytes_length; lia).
  rewrite fields_header. simpl (orb _ _).
  destruct (Decoder.fields _ _ _ _ _) as [[[cp co] ep] eo].
  destruct (_ || _ || _ || _); [reflexivity |].
  destruct (Decoder.complete cp co ep eo) as [[[cp' co'] ep'] eo'].
  rewrite <- !andb_assoc, (set_eq_range_bounds cp' 8 7 eq_refl),
    (set_eq_range_bounds ep' 12 11 eq_refl).
  reflexivity.
Qed.

(** C1 (as amended): on a facelets frame (at least 19 bytes, header 55 02)
    the solved verdict is that of the parse at the backend offsets when that
    parse is valid; when it is not, the frame is not discarded: the verdict
    is that of [_parse_facelets_with_variants] on the frame body (the first
    valid parse over byte/bit-order variants and bit shifts, else the
    unvalidated default parse). *)
Theorem facelets_verdict_canonical_or_variants (clear : list Z) :
  (19 <= length clear)%nat -> Decoder.is_header_55_02 clear = true ->
  Decoder._is_solved_facelets clear =
    match Decoder._parse_facelets_headered clear with
    | Some p => Decoder.verdict p
    | None => Decoder.verdict (Decoder._parse_facelets_with_variants (skipn 2 clear))
    end.
Proof.
  intros Hl Hh.
  destruct clear as [| a [| b body]]; simpl in Hl; try lia.
  unfold Decoder.is_header_55_02 in Hh. simpl in Hh.
  apply andb_prop in Hh as [Ha Hb]. apply Z.eqb_eq in Ha, Hb.
  unfold Decoder._is_solved_facelets.
  replace ((19 <=? length (a :: b :: body))%nat && Decoder.is_header_55_02 (a :: b :: body))
    with true by (symmetry; apply andb_true_intro; split;
                  [apply Nat.leb_le; simpl; lia | unfold Decoder.is_header_55_02; simpl; subst; reflexivity]).
  simpl skipn.
  replace (17 <=? length body)%nat with true by (symmetry; apply Nat.leb_le; lia).
  rewrite (canonical_body_headered a b body) by lia.
  destruct (Decoder._parse_facelets_headered (a :: b :: body)); reflexivity.
Qed.

(** C1 counterexample: [early_fields_frame] is a 19-byte facelets frame whose
    completed corner permutation at the backend offsets is
    [0;0;0;0;0;0;1;27], not a permutation of 0-7, so its canonical parse is
    invalid; [_is_solved_facelets] still reports it solved (the variant
    search finds the solved state 24 bits earlier). *)
Lemma malformed_frame_reported_solved :
  length early_fields_frame = 19%nat /\
  Decoder.is_header_55_02 early_fields_frame = true /\
  (let '(cp, _, _, _) :=
     (let '(cp, co, ep, eo) :=
        Decoder.fields (Decoder._bits_from_bytes early_fields_frame) 40 61 77 121 in
      Decoder.complete cp co ep eo) in
   cp = [0; 0; 0; 0; 0; 0; 1; 27] /\ Decoder.set_eq_range cp 8 = false) /\
  Decoder._parse_facelets_headered early_fields_frame = None /\
  Decoder._is_solved_facelets early_fields_frame = true.
Proof. vm_compute. repeat split. Qed.

Lemma facelets_verdict_canonical_or_variants_witness :
  (19 <= length early_fields_frame)%nat /\
  Decoder.is_header_55_02 early_fields_frame = true /\
  Decoder._is_solved_facelets early_fields_frame =
    Decoder.verdict (Decoder._parse_facelets_with_variants (skipn 2 early_fields_frame)).
Proof.
  assert (H1 : (19 <= length early_fields_frame)%nat) by (simpl; lia).
  assert (H2 : Decoder.is_header_55_02 early_fields_frame = true) by reflexivity.
  split; [exact H1 | split; [exact H2 |]].
  rewrite (facelets_verdict_canonical_or_variants early_fields_frame H1 H2).
  reflexivity.
Defined.

(** ** Codec *)

Lemma xor_bytes_length (a b : list Z) :
  length (Py.xor_bytes a b) = Nat.min (length a) (length b).
Proof. unfold Py.xor_bytes. now rewrite length_map, length_combine. Qed.

Lemma xor_bytes_involutive (a b : list Z) :
  (length a <= length b)%nat -> Py.xor_bytes (Py.xor_bytes a b) b = a.
Proof.
  unfold Py.xor_bytes. revert b.
  induction a as [| x a IH]; intros [| y b] H; simpl in *; try reflexivity; try lia.
  f_equal.
  - now rewrite Z.lxor_assoc, Z.lxor_nilpotent, Z.lxor_0_r.
  - apply IH. lia.
Qed.

Lemma slice_prefix {X} (l1 l2 : list X) (n : nat) :
  length l1 = n -> Py.slice (l1 ++ l2) 0 n = l1.
Proof.
  intros <-. unfold Py.slice. rewrite Nat.sub_0_r, skipn_O, firstn_app, Nat.sub_diag.
  now rewrite firstn_all, firstn_O, app_nil_r.
Qed.

Lemma slice_suffix {X} (l1 l2 : list X) (n e : nat) :
  length l1 = n -> e = (n + length l2)%nat -> Py.slice (l1 ++ l2) n e = l2.
Proof.
  intros <- ->. unfold Py.slice.
  replace (length l1 + length l2 - length l1)%nat with (length l2) by lia.
  rewrite skipn_app, skipn_all, Nat.sub_diag, skipn_O. apply firstn_all.
Qed.

Lemma setslice_prefix {X} (l1 l2 x : list X) (n : nat) :
  length l1 = n -> Py.setslice (l1 ++ l2) 0 n x = x ++ l2.
Proof.
  intros <-. unfold Py.setslice. simpl.
  now rewrite skipn_app, skipn_all, Nat.sub_diag, skipn_O.
Qed.

Lemma setslice_suffix {X} (l1 l2 x : list X) (n e : nat) :
  length l1 = n -> e = (n + length l2)%nat -> Py.setslice (l1 ++ l2) n e x = l1 ++ x.
Proof.
  intros <- ->. unfold Py.setslice.
  rewrite skipn_app_length, skipn_all, app_nil_r.
  rewrite firstn_app, Nat.sub_diag, firstn_O, app_nil_r. now rewrite firstn_all.
Qed.

Lemma slice_all {X} (l : list X) (n : nat) : length l = n -> Py.slice l 0 n = l.
Proof. intros Hl. unfold Py.slice. rewrite Nat.sub_0_r, skipn_O. apply firstn_all2. lia. Qed.

Lemma setslice_all {X} (l : list X) (n : nat) :
  length l = n -> forall x, Py.setslice l 0 n x = x.
Proof.
  intros Hl x. unfold Py.setslice. rewrite (skipn_all2 l) by lia.
  rewrite app_nil_r. reflexivity.
Qed.

(** Both chunk orders on a single 16-byte block. *)
Lemma dec_orders_16 (A : Cipher) (key iv c : list Z) :
  length c = 16%nat ->
  Gan._dec_last_first A c key iv = cbc_decrypt_block A key iv c /\
  Gan._dec_first_last A c key iv = cbc_decrypt_block A key iv c.
Proof.
  intros Hc. unfold Gan._dec_last_first, Gan._dec_first_last. rewrite Hc. simpl.
  now rewrite (slice_all c 16 Hc), (setslice_all c 16 Hc).
Qed.

(** Both chunk orders on two 16-byte blocks: two independent blocks. *)
Lemma dec_orders_32 (A : Cipher) (key iv c1 c2 : list Z) :
  length c1 = 16%nat -> length c2 = 16%nat ->
  length (cbc_decrypt_block A key iv c1) = 16%nat ->
  length (cbc_decrypt_block A key iv c2) = 16%nat ->
  Gan._dec_last_first A (c1 ++ c2) key iv
    = cbc_decrypt_block A key iv c1 ++ cbc_decrypt_block A key iv c2 /\
  Gan._dec_first_last A (c1 ++ c2) key iv
    = cbc_decrypt_block A key iv c1 ++ cbc_decrypt_block A key iv c2.
Proof.
  intros H1 H2 D1 D2.
  assert (Hn : length (c1 ++ c2) = 32%nat) by (rewrite List.length_app; lia).
  unfold Gan._dec_last_first, Gan._dec_first_last. rewrite Hn. simpl.
  split.
  - rewrite (slice_suffix c1 c2 16 32 H1) by lia.
    rewrite (setslice_suffix c1 c2 _ 16 32 H1) by lia.
    rewrite (slice_prefix c1 _ 16 H1), (setslice_prefix c1 _ _ 16 H1).
    reflexivity.
  - rewrite (slice_prefix c1 c2 16 H1), (setslice_prefix c1 c2 _ 16 H1).
    rewrite (slice_suffix _ c2 16 32 D1) by lia.
    rewrite (setslice_suffix _ c2 _ 16 32 D1) by lia.
    reflexivity.
Qed.

(** The selection made by [decrypt_packet] once both orders agree. *)
Lemma decrypt_packet_orders_agree (A : Cipher) (c key iv x : list Z) :
  (16 <= length c)%nat ->
  Gan._dec_last_first A c key iv = x -> Gan._dec_first_last A c key iv = x ->
  Gan.decrypt_packet A c key iv = Some (if Gan.starts_55 c then c else x).
Proof.
  intros Hl H1 H2. unfold Gan.decrypt_packet.
  replace (length c <? 16)%nat with false by (symmetry; apply Nat.ltb_ge; lia).
  replace (2 <=? length c)%nat with true by (symmetry; apply Nat.leb_le; lia).
  rewrite andb_true_r. destruct (Gan.starts_55 c); [reflexivity |].
  rewrite H1, H2. now destruct (Gan.starts_55 x).
Qed.

(** C10: a packet of at least 16 bytes whose first byte is already 0x55 is
    returned unchanged, whatever the cipher (no block is decrypted); the two
    chunk orders are tried only when the first byte is not 0x55. *)
Theorem decrypt_packet_marker_passthrough (A : Cipher) (pkt key iv : list Z) :
  (16 <= length pkt)%nat ->
  (nth 0 pkt 0 = 85 -> Gan.decrypt_packet A pkt key iv = Some pkt) /\
  (nth 0 pkt 0 <> 85 ->
     Gan.decrypt_packet A pkt key iv =
       (let d1 := Gan._dec_last_first A pkt key iv in
        if Gan.starts_55 d1 then Some d1
        else let d2 := Gan._dec_first_last A pkt key iv in
             if Gan.starts_55 d2 then Some d2 else Some d1)).
Proof.
  intros Hl. destruct pkt as [| x t]; simpl in Hl; [lia |].
  unfold Gan.decrypt_packet.
  replace (length (x :: t) <? 16)%nat with false by (symmetry; apply Nat.ltb_ge; simpl; lia).
  replace (2 <=? length (x :: t))%nat with true by (symmetry; apply Nat.leb_le; simpl; lia).
  assert (Hs : Gan.starts_55 (x :: t) = (x =? 85)) by reflexivity.
  rewrite Hs, andb_true_r. simpl nth.
  split; intros Hx.
  - subst x. reflexivity.
  - replace (x =? 85) with false by (symmetry; apply Z.eqb_neq; exact Hx).
    reflexivity.
Qed.

Lemma decrypt_packet_marker_passthrough_witness :
  (16 <= length marker_block)%nat /\
  Gan.decrypt_packet aes128 marker_block known_key known_iv = Some marker_block.
Proof.
  assert (H : (16 <= length marker_block)%nat) by (simpl; lia).
  split; [exact H |].
  apply (proj1 (decrypt_packet_marker_passthrough aes128 _ known_key known_iv H)).
  reflexivity.
Defined.

(** C3 (as amended): a 32-byte ciphertext whose first byte is 0x55 is
    returned unchanged, whatever the cipher. For a block cipher keeping the
    block length, both chunk orders give the same bytes: the two halves
    decrypted as independent single-block CBC operations with the same IV;
    and when the first byte is not 0x55, trailing-then-leading is tried
    first, then leading-then-trailing, the first result starting with 0x55
    is taken, else the first attempt's output. *)
Theorem decrypt32_two_orders (A : Cipher) (ct key iv : list Z) :
  length ct = 32%nat ->
  (nth 0 ct 0 = 85 -> Gan.decrypt_packet A ct key iv = Some ct) /\
  (length (cbc_decrypt_block A key iv (firstn 16 ct)) = 16%nat ->
   length (cbc_decrypt_block A key iv (skipn 16 ct)) = 16%nat ->
   let D := cbc_decrypt_block A key iv (firstn 16 ct) ++ cbc_decrypt_block A key iv (skipn 16 ct) in
   Gan._dec_last_first A ct key iv = D /\
   Gan._dec_first_last A ct key iv = D /\
   (nth 0 ct 0 <> 85 ->
    Gan.decrypt_packet A ct key iv =
      (let d1 := Gan._dec_last_first A ct key iv in
       if Gan.starts_55 d1 then Some d1
       else let d2 := Gan._dec_first_last A ct key iv in
            if Gan.starts_55 d2 then Some d2 else Some d1) /\
    Gan.decrypt_packet A ct key iv = Some D)).
Proof.
  intros Hl. split.
  - intros Hx. destruct ct as [| x t]; [discriminate |]. simpl in Hx. subst x.
    unfold Gan.decrypt_packet. rewrite Hl. reflexivity.
  - intros D1 D2 D.
    assert (Hc : ct = firstn 16 ct ++ skipn 16 ct) by (symmetry; apply firstn_skipn).
    assert (L1 : length (firstn 16 ct) = 16%nat) by (rewrite length_firstn; lia).
    assert (L2 : length (skipn 16 ct) = 16%nat) by (rewrite length_skipn; lia).
    destruct (dec_orders_32 A key iv _ _ L1 L2 D1 D2) as [O1 O2].
    rewrite <- Hc in O1, O2. fold D in O1, O2.
    split; [exact O1 | split; [exact O2 |]].
    intros Hx.
    assert (Hs : Gan.starts_55 ct = false).
    { destruct ct as [| x t]; [discriminate |]. simpl in Hx |- *. apply Z.eqb_neq. exact Hx. }
    assert (Hp := decrypt_packet_orders_agree A ct key iv D ltac:(lia) O1 O2).
    rewrite Hs in Hp. split; [| exact Hp].
    rewrite Hp. cbv zeta. rewrite O1, O2. now destruct (Gan.starts_55 D).
Qed.

(** C3 counterexample: the 32-byte ciphertext 55 00 ... 00 is returned as it
    is under the session keys of [KNOWN_MAC]; neither chunk order (whose
    outputs start with 0x71) is applied. *)
Lemma decrypt32_marker_ciphertext_not_decrypted :
  let ct := marker_ct32 in
  let d1 := Gan._dec_last_first aes128 ct known_key known_iv in
  let d2 := Gan._dec_first_last aes128 ct known_key known_iv in
  length ct = 32%nat /\
  Gan.decrypt_packet aes128 ct known_key known_iv = Some ct /\
  Gan.decrypt_packet aes128 ct known_key known_iv <>
    (if Gan.starts_55 d1 then Some d1 else if Gan.starts_55 d2 then Some d2 else Some d1).
Proof.
  vm_compute. split; [reflexivity | split; [reflexivity |]]. congruence.
Qed.

Lemma decrypt32_two_orders_witness :
  (length marker_ct32 = 32%nat /\ nth 0 marker_ct32 0 = 85 /\
   Gan.decrypt_packet aes128 marker_ct32 known_key known_iv = Some marker_ct32) /\
  (let ct := repeat 0 32 in
   length ct = 32%nat /\ nth 0 ct 0 <> 85 /\
   Gan.decrypt_packet aes128 ct known_key known_iv =
     Some (cbc_decrypt_block aes128 known_key known_iv (firstn 16 ct) ++
           cbc_decrypt_block aes128 known_key known_iv (skipn 16 ct))).
Proof.
  split.
  - assert (H1 : length marker_ct32 = 32%nat) by reflexivity.
    assert (H2 : nth 0 marker_ct32 0 = 85) by reflexivity.
    split; [exact H1 | split; [exact H2 |]].
    exact (proj1 (decrypt32_two_orders aes128 marker_ct32 known_key known_iv H1) H2).
  - intros ct.
    assert (H1 : length ct = 32%nat) by reflexivity.
    assert (H2 : nth 0 ct 0 <> 85) by discriminate.
    assert (H3 : length (cbc_decrypt_block aes128 known_key known_iv (firstn 16 ct)) = 16%nat)
      by (vm_compute; reflexivity).
    assert (H4 : length (cbc_decrypt_block aes128 known_key known_iv (skipn 16 ct)) = 16%nat)
      by (vm_compute; reflexivity).
    split; [exact H1 | split; [exact H2 |]].
    exact (proj2 (proj2 (proj2 (proj2 (decrypt32_two_orders aes128 ct known_key known_iv H1) H3 H4)) H2)).
Defined.

(** C9 (as amended): [encrypt_packet] returns [None] exactly for plaintexts
    shorter than 16 bytes; a 16-byte plaintext is one CBC block; a longer
    plaintext has its leading 16 bytes encrypted, then the trailing 16 bytes
    of the resulting buffer, each with a fresh CBC object on the same IV;
    for 32 bytes these are the two independent halves. *)
Theorem encrypt_packet_framing (A : Cipher) (data key iv : list Z) :
  ((length data < 16)%nat -> Gan.encrypt_packet A data key iv = None) /\
  (length data = 16%nat ->
     Gan.encrypt_packet A data key iv = Some (cbc_encrypt_block A key iv data)) /\
  ((16 < length data)%nat ->
     Gan.encrypt_packet A data key iv =
       (let n := length data in
        let buf := cbc_encrypt_block A key iv (firstn 16 data) ++ skipn 16 data in
        Some (Py.setslice buf (n - 16) n
                (cbc_encrypt_block A key iv (Py.slice buf (n - 16) n))))) /\
  (length data = 32%nat ->
   length (cbc_encrypt_block A key iv (firstn 16 data)) = 16%nat ->
     Gan.encrypt_packet A data key iv =
       Some (cbc_encrypt_block A key iv (firstn 16 data) ++
             cbc_encrypt_block A key iv (skipn 16 data))).
Proof.
  unfold Gan.encrypt_packet.
  assert (Hbuf : forall x, Py.setslice data 0 16 x = x ++ skipn 16 data) by reflexivity.
  assert (Hsl : Py.slice data 0 16 = firstn 16 data)
    by (unfold Py.slice; now rewrite Nat.sub_0_r, skipn_O).
  split; [| split; [| split]].
  - intros H. now replace (length data <? 16)%nat with true by (symmetry; apply Nat.ltb_lt; lia).
  - intros H. rewrite H. simpl (16 <? 16)%nat. cbv iota beta zeta.
    rewrite (slice_all data 16 H), (setslice_all data 16 H). reflexivity.
  - intros H.
    replace (length data <? 16)%nat with false by (symmetry; apply Nat.ltb_ge; lia).
    replace (16 <? length data)%nat with true by (symmetry; apply Nat.ltb_lt; lia).
    rewrite Hsl, Hbuf. cbv zeta.
    now replace (length data - 16 + 16)%nat with (length data) by lia.
  - intros H E. rewrite H. simpl (32 <? 16)%nat. simpl (16 <? 32)%nat. cbv iota beta zeta.
    rewrite Hsl, Hbuf. simpl (32 - 16)%nat. simpl (16 + 16)%nat.
    assert (L2 : length (skipn 16 data) = 16%nat) by (rewrite length_skipn; lia).
    rewrite (slice_suffix _ _ 16 32 E) by lia.
    rewrite (setslice_suffix _ _ _ 16 32 E) by lia.
    reflexivity.
Qed.

(** C9 counterexample: a 17-byte plaintext is encrypted (to 17 bytes)
    instead of being refused. *)
Lemma encrypt_packet_accepts_17_bytes :
  exists c, Gan.encrypt_packet aes128 (repeat 0 17) known_key known_iv = Some c /\
            length c = 17%nat.
Proof. eexists. vm_compute. split; reflexivity. Qed.

Lemma encrypt_packet_framing_witness :
  Gan.encrypt_packet aes128 (repeat 0 32) known_key known_iv =
    Some (cbc_encrypt_block aes128 known_key known_iv (firstn 16 (repeat 0 32)) ++
          cbc_encrypt_block aes128 known_key known_iv (skipn 16 (repeat 0 32))).
Proof.
  apply (proj2 (proj2 (proj2 (encrypt_packet_framing aes128 (repeat 0 32) known_key known_iv)))).
  - reflexivity.
  - vm_compute. reflexivity.
Defined.

(** ** Round trip *)

Lemma cbc_block_roundtrip (A : Cipher) (key iv blk : list Z) :
  (length blk <= length iv)%nat ->
  block_invertible A key (Py.xor_bytes blk iv) ->
  cbc_decrypt_block A key iv (cbc_encrypt_block A key iv blk) = blk.
Proof.
  intros Hl [_ Hd]. unfold cbc_decrypt_block, cbc_encrypt_block.
  rewrite Hd. now apply xor_bytes_involutive.
Qed.

Lemma encrypt_packet_16 (A : Cipher) (p key iv : list Z) :
  length p = 16%nat ->
  Gan.encrypt_packet A p key iv = Some (cbc_encrypt_block A key iv p).
Proof.
  intros H. unfold Gan.encrypt_packet. rewrite H. simpl (16 <? 16)%nat.
  cbv iota beta zeta. rewrite (slice_all p 16 H), (setslice_all p 16 H). reflexivity.
Qed.

Lemma encrypt_packet_32 (A : Cipher) (p key iv : list Z) :
  length p = 32%nat ->
  length (cbc_encrypt_block A key iv (firstn 16 p)) = 16%nat ->
  Gan.encrypt_packet A p key iv =
    Some (cbc_encrypt_block A key iv (firstn 16 p) ++ cbc_encrypt_block A key iv (skipn 16 p)).
Proof.
  intros H E. unfold Gan.encrypt_packet. rewrite H.
  simpl (32 <? 16)%nat. simpl (16 <? 32)%nat. cbv iota beta zeta.
  assert (Hsl : Py.slice p 0 16 = firstn 16 p)
    by (unfold Py.slice; now rewrite Nat.sub_0_r, skipn_O).
  assert (Hbuf : forall x, Py.setslice p 0 16 x = x ++ skipn 16 p) by reflexivity.
  rewrite Hsl, Hbuf. simpl (32 - 16)%nat. simpl (16 + 16)%nat.
  assert (L2 : length (skipn 16 p) = 16%nat) by (rewrite length_skipn; lia).
  rewrite (slice_suffix _ _ 16 32 E) by lia.
  rewrite (setslice_suffix _ _ _ 16 32 E) by lia.
  reflexivity.
Qed.

(** C2 (as amended): for a 16- or 32-byte payload and a 16-byte IV, with a
    block cipher that inverts each encrypted block, [encrypt_packet] succeeds
    and [decrypt_packet] of its output gives the payload back, unless the
    ciphertext itself starts with 0x55, in which case [decrypt_packet]
    returns the ciphertext unchanged. *)
Theorem encrypt_then_decrypt (A : Cipher) (p key iv : list Z) :
  length iv = 16%nat ->
  length p = 16%nat \/ length p = 32%nat ->
  block_invertible A key (Py.xor_bytes (firstn 16 p) iv) ->
  (length p = 32%nat -> block_invertible A key (Py.xor_bytes (skipn 16 p) iv)) ->
  exists c, Gan.encrypt_packet A p key iv = Some c /\
            Gan.decrypt_packet A c key iv = Some (if Gan.starts_55 c then c else p).
Proof.
  intros Hiv Hp B1 B2.
  destruct Hp as [Hp | Hp].
  - rewrite (firstn_all2 p) in B1 by lia.
    exists (cbc_encrypt_block A key iv p). split; [now apply encrypt_packet_16 |].
    assert (Len : length (cbc_encrypt_block A key iv p) = 16%nat) by exact (proj1 B1).
    assert (R : cbc_decrypt_block A key iv (cbc_encrypt_block A key iv p) = p)
      by (apply cbc_block_roundtrip; [lia | exact B1]).
    destruct (dec_orders_16 A key iv _ Len) as [D1 D2]. rewrite R in D1, D2.
    apply decrypt_packet_orders_agree; [lia | exact D1 | exact D2].
  - specialize (B2 Hp).
    assert (L1 : length (firstn 16 p) = 16%nat) by (rewrite length_firstn; lia).
    assert (L2 : length (skipn 16 p) = 16%nat) by (rewrite length_skipn; lia).
    set (E1 := cbc_encrypt_block A key iv (firstn 16 p)).
    set (E2 := cbc_encrypt_block A key iv (skipn 16 p)).
    assert (R1 : cbc_decrypt_block A key iv E1 = firstn 16 p)
      by (apply cbc_block_roundtrip; [lia | exact B1]).
    assert (R2 : cbc_decrypt_block A key iv E2 = skipn 16 p)
      by (apply cbc_block_roundtrip; [lia | exact B2]).
    assert (LE1 : length E1 = 16%nat) by exact (proj1 B1).
    assert (LE2 : length E2 = 16%nat) by exact (proj1 B2).
    exists (E1 ++ E2). split; [now apply encrypt_packet_32 |].
    destruct (dec_orders_32 A key iv E1 E2 LE1 LE2) as [D1 D2];
      [rewrite R1; exact L1 | rewrite R2; exact L2 |].
    rewrite R1, R2, firstn_skipn in D1, D2.
    apply decrypt_packet_orders_agree; [rewrite List.length_app; lia | exact D1 | exact D2].
Qed.

(** C2 counterexample: [marker_preimage] encrypts to a ciphertext whose
    first byte is 0x55, and [decrypt_packet] hands that ciphertext back
    undecrypted, so the round trip does not return the payload. *)
Lemma roundtrip_fails_on_marker_ciphertext :
  Gan.encrypt_packet aes128 marker_preimage known_key known_iv = Some marker_block /\
  Gan.decrypt_packet aes128 marker_block known_key known_iv = Some marker_block /\
  marker_block <> marker_preimage.
Proof. vm_compute. split; [reflexivity | split; [reflexivity | discriminate]]. Qed.

Lemma encrypt_then_decrypt_witness :
  exists c, Gan.encrypt_packet aes128 (repeat 0 32) known_key known_iv = Some c /\
            Gan.decrypt_packet aes128 c known_key known_iv =
              Some (if Gan.starts_55 c then c else repeat 0 32).
Proof.
  apply (encrypt_then_decrypt aes128 (repeat 0 32) known_key known_iv).
  - vm_compute. reflexivity.
  - right. reflexivity.
  - split; vm_compute; reflexivity.
  - intros _. split; vm_compute; reflexivity.
Defined.

(** ** Key derivation *)

Lemma is_hex_value (c : ascii) : is_hex c = true -> Gan.hex_digit c = Some (hex_value c).
Proof. unfold is_hex, hex_value. now destruct (Gan.hex_digit c). Qed.

Lemma salt_byte_cons (h l : ascii) (t : list ascii) (i : nat) :
  salt_byte (h :: l :: t) (S i) = salt_byte t i.
Proof.
  unfold salt_byte.
  replace (2 * S i)%nat with (S (S (2 * i))) by lia.
  replace (S (S (2 * i)) + 1)%nat with (S (S (2 * i + 1))) by lia.
  reflexivity.
Qed.

Lemma fromhex_all_hex (n : nat) (s : list ascii) :
  length s = (2 * n)%nat -> forallb is_hex s = true ->
  Gan.fromhex s = Some (map (salt_byte s) (seq 0 n)).
Proof.
  revert s. induction n as [| n IH]; intros s Hl Hh.
  - destruct s; [reflexivity | simpl in Hl; lia].
  - destruct s as [| h [| l t]]; simpl in Hl; try lia.
    simpl in Hh. apply andb_prop in Hh as [Hh1 Hh]. apply andb_prop in Hh as [Hh2 Ht].
    simpl. rewrite (is_hex_value h Hh1), (is_hex_value l Hh2), (IH t) by (auto; lia).
    f_equal. f_equal.
    rewrite <- seq_shift, map_map. apply map_ext. intros i. now rewrite salt_byte_cons.
Qed.

Lemma fromhex_some_all_hex (s : list ascii) (r : list Z) :
  Gan.fromhex s = Some r -> forallb is_hex s = true.
Proof.
  remember (length s) as n eqn:Hn. assert (Hle : (length s <= n)%nat) by lia. clear Hn.
  revert s r Hle. induction n as [| n IH]; intros s r Hle E.
  - destruct s; [reflexivity | simpl in Hle; lia].
  - destruct s as [| h [| l t]]; [reflexivity | discriminate |].
    simpl in E, Hle. simpl.
    destruct (Gan.hex_digit h) eqn:Eh, (Gan.hex_digit l) eqn:El; try discriminate.
    destruct (Gan.fromhex t) as [r' |] eqn:Et; [| discriminate].
    unfold is_hex at 1 2. rewrite Eh, El.
    apply (IH t r'); [lia | exact Et].
Qed.

Lemma salt_byte_firstn (l : list ascii) (i : nat) :
  (i < 6)%nat -> salt_byte (firstn 12 l) i = salt_byte l i.
Proof.
  intros Hi. unfold salt_byte. rewrite !nth_firstn.
  replace (2 * i <? 12)%nat with true by (symmetry; apply Nat.ltb_lt; lia).
  replace (2 * i + 1 <? 12)%nat with true by (symmetry; apply Nat.ltb_lt; lia).
  reflexivity.
Qed.

(** The salt actually read by [derive_key_iv_from_mac]. *)
Lemma derive_salt (mac : string) :
  Gan.derive_key_iv_from_mac mac =
    match (if (length (mac_clean mac) =? 12)%nat then Gan.fromhex (mac_clean mac)
           else if (length (mac_clean mac) =? 32)%nat then Gan.fromhex (firstn 12 (mac_clean mac))
           else None) with
    | None => None
    | Some salt =>
        Some (fold_left (fun '(key, iv) i =>
                (Py.setitem key i ((nth i Gan.BASE_KEY 0 + nth i salt 0) mod 255),
                 Py.setitem iv i ((nth i Gan.BASE_IV 0 + nth i salt 0) mod 255)))
              (seq 0 6) (Gan.BASE_KEY, Gan.BASE_IV))
    end.
Proof. reflexivity. Qed.

(** When the address is accepted, the salt is its first six bytes. *)
Lemma derive_salt_accepted (mac : string) :
  (length (mac_clean mac) = 12%nat \/ length (mac_clean mac) = 32%nat) ->
  forallb is_hex (firstn 12 (mac_clean mac)) = true ->
  (if (length (mac_clean mac) =? 12)%nat then Gan.fromhex (mac_clean mac)
   else if (length (mac_clean mac) =? 32)%nat then Gan.fromhex (firstn 12 (mac_clean mac))
   else None) = Some (map (salt_byte (mac_clean mac)) (seq 0 6)).
Proof.
  intros Hl Hh.
  assert (Hf : Gan.fromhex (firstn 12 (mac_clean mac)) =
               Some (map (salt_byte (mac_clean mac)) (seq 0 6))).
  { rewrite (fromhex_all_hex 6) by (auto; rewrite length_firstn; lia).
    f_equal. apply map_ext_in. intros i Hi. apply in_seq in Hi.
    apply salt_byte_firstn. lia. }
  destruct Hl as [Hl | Hl]; rewrite Hl; simpl (_ =? _)%nat; cbv iota.
  - rewrite <- Hf. f_equal. symmetry. apply firstn_all2. lia.
  - exact Hf.
Qed.

(** C5: an address that normalises to 12 characters, or to 32 characters,
    whose first 12 characters are hexadecimal yields a 16-byte key and a
    16-byte IV; bytes 0-5 are the base byte plus the salt byte modulo 255
    (the salt byte [i] being the hex pair at characters [2i], [2i+1]);
    bytes 6-15 are the base constants. *)
Theorem derive_key_iv_layout (mac : string) :
  (length (mac_clean mac) = 12%nat \/ length (mac_clean mac) = 32%nat) ->
  forallb is_hex (firstn 12 (mac_clean mac)) = true ->
  exists key iv,
    Gan.derive_key_iv_from_mac mac = Some (key, iv) /\
    length key = 16%nat /\ length iv = 16%nat /\
    (forall i, (i < 6)%nat ->
       nth i key 0 = (nth i Gan.BASE_KEY 0 + salt_byte (mac_clean mac) i) mod 255 /\
       nth i iv 0 = (nth i Gan.BASE_IV 0 + salt_byte (mac_clean mac) i) mod 255) /\
    (forall i, (6 <= i < 16)%nat ->
       nth i key 0 = nth i Gan.BASE_KEY 0 /\ nth i iv 0 = nth i Gan.BASE_IV 0).
Proof.
  intros Hl Hh. rewrite derive_salt, (derive_salt_accepted mac Hl Hh).
  set (sb := salt_byte (mac_clean mac)). cbn.
  eexists. eexists. split; [reflexivity |].
  split; [reflexivity | split; [reflexivity | split]].
  - intros i Hi.
    do 6 (destruct i as [| i]; [split; reflexivity |]). lia.
  - intros i Hi.
    do 6 (destruct i as [| i]; [lia |]).
    do 10 (destruct i as [| i]; [split; reflexivity |]). lia.
Qed.

Lemma derive_key_iv_layout_witness :
  exists key iv,
    Gan.derive_key_iv_from_mac KNOWN_MAC = Some (key, iv) /\
    length key = 16%nat /\ length iv = 16%nat /\
    (forall i, (i < 6)%nat ->
       nth i key 0 = (nth i Gan.BASE_KEY 0 + salt_byte (mac_clean KNOWN_MAC) i) mod 255 /\
       nth i iv 0 = (nth i Gan.BASE_IV 0 + salt_byte (mac_clean KNOWN_MAC) i) mod 255) /\
    (forall i, (6 <= i < 16)%nat ->
       nth i key 0 = nth i Gan.BASE_KEY 0 /\ nth i iv 0 = nth i Gan.BASE_IV 0).
Proof.
  apply (derive_key_iv_layout KNOWN_MAC).
  - left. vm_compute. reflexivity.
  - vm_compute. reflexivity.
Defined.

(** C8 (as amended): [derive_key_iv_from_mac] fails exactly when the
    normalised address has neither 12 nor 32 characters, or one of its first
    12 characters is not hexadecimal; characters after the 12th are never
    checked. *)
Theorem derive_key_iv_failure (mac : string) :
  Gan.derive_key_iv_from_mac mac = None <->
  ((length (mac_clean mac) <> 12%nat /\ length (mac_clean mac) <> 32%nat) \/
   forallb is_hex (firstn 12 (mac_clean mac)) = false).
Proof.
  destruct (Nat.eq_dec (length (mac_clean mac)) 12) as [H12 | H12];
  [| destruct (Nat.eq_dec (length (mac_clean mac)) 32) as [H32 | H32]].
  3: { rewrite derive_salt.
       replace (length (mac_clean mac) =? 12)%nat with false by (symmetry; apply Nat.eqb_neq; lia).
       replace (length (mac_clean mac) =? 32)%nat with false by (symmetry; apply Nat.eqb_neq; lia).
       tauto. }
  all: destruct (forallb is_hex (firstn 12 (mac_clean mac))) eqn:Hh.
  1,3: rewrite derive_salt, (derive_salt_accepted mac ltac:(lia) Hh);
       split; [discriminate | intros [[? ?] | ?]; [lia | discriminate]].
  all: split; [intros _; now right | intros _].
  all: rewrite derive_salt.
  - rewrite H12. simpl (12 =? 12)%nat. cbv iota.
    rewrite (firstn_all2 (mac_clean mac)) in Hh by lia.
    destruct (Gan.fromhex (mac_clean mac)) eqn:E; [| reflexivity].
    apply fromhex_some_all_hex in E. congruence.
  - rewrite H32. simpl (32 =? 12)%nat. simpl (32 =? 32)%nat. cbv iota.
    destruct (Gan.fromhex (firstn 12 (mac_clean mac))) eqn:E; [| reflexivity].
    apply fromhex_some_all_hex in E. congruence.
Qed.

(** C8 counterexample: a 32-character identifier that is not 16 raw bytes
    (its last 20 characters are not hexadecimal) still produces session
    keys. *)
Lemma non_hex_identifier_accepted :
  length (mac_clean non_hex_identifier) = 32%nat /\
  Gan.fromhex (mac_clean non_hex_identifier) = None /\
  Gan.derive_key_iv_from_mac non_hex_identifier <> None.
Proof. vm_compute. split; [reflexivity | split; [reflexivity | discriminate]]. Qed.

(** ** Deferred facelets retries *)

(** One tick with a non-busy write outcome and the EALREADY flag clear:
    the flag stays clear, and an attempt uses up one unit of a positive
    retry count while no attempt leaves the count as it was. *)
Lemma poll_tick_tail_nonbusy (now : Z) (w : Session.write_result) (g : Session.Globals) :
  Session._last_write_ealready (Session.dispatch g) = false -> is_busy w = false ->
  let '(g', attempted) := Session.poll_tick_tail now w g in
  Session._last_write_ealready (Session.dispatch g') = false /\
  (if attempted
   then 0 < Session._facelets_retry_count (Session.dispatch g) /\
        Session._facelets_retry_count (Session.dispatch g') =
          Session._facelets_retry_count (Session.dispatch g) - 1
   else Session._facelets_retry_count (Session.dispatch g') =
          Session._facelets_retry_count (Session.dispatch g)).
Proof.
  intros He Hw. unfold Session.poll_tick_tail, Session.proactive_poll, Session.retry_block.
  destruct (Session.is_some (Session._conn g)), (Session.is_some (Session._cmd_handle g));
    simpl andb; cbv iota; try (split; [exact He | reflexivity]).
  destruct (0 <? Session._facelets_retry_count (Session.dispatch g)) eqn:E3;
    cbv iota; try (split; [exact He | reflexivity]).
  destruct (0 <=? Session.ticks_diff now (Session._facelets_retry_next_ms (Session.dispatch g)));
    cbv iota; try (split; [exact He | reflexivity]).
  apply Z.ltb_lt in E3.
  destruct (negb (Session._ble_next_ok_ms g =? 0) &&
            (Session.ticks_diff now (Session._ble_next_ok_ms g) <? 0)).
  - simpl. split; [exact He | reflexivity].
  - rewrite He. destruct w; try discriminate; simpl; split; auto.
Qed.

(** C6: with a connection and a command handle, a due retry outside the BLE
    cooldown, and the EALREADY flag clear (it is only set by the write of
    this block, which clears it again), a busy write keeps the retry count
    and retries 40 ms later, any other outcome decrements the count and
    retries 200 ms later, and the flag is clear again. With a count of zero
    or less the retry block attempts nothing. Over any run of ticks whose
    writes all fail non-busy (or succeed), at most as many writes are
    attempted as the retry count allowed at the start, whatever the times:
    once the budget is used up the request is dropped and the ticks never
    attempt it again (the proactive poll of the tick, which would re-arm
    it, always stops at [UnboundLocalError]). *)
Theorem retry_block_outcomes (now : Z) (w : Session.write_result)
    (g : Session.Globals) (d : Session.Dispatch) :
  (Session._facelets_retry_count d <= 0 -> Session.retry_block now w g d = (d, false)) /\
  (Session.is_some (Session._conn g) && Session.is_some (Session._cmd_handle g) = true ->
   0 < Session._facelets_retry_count d ->
   0 <= Session.ticks_diff now (Session._facelets_retry_next_ms d) ->
   (Session._ble_next_ok_ms g = 0 \/ 0 <= Session.ticks_diff now (Session._ble_next_ok_ms g)) ->
   Session._last_write_ealready d = false ->
   let '(d', attempted) := Session.retry_block now w g d in
   attempted = true /\
   Session._facelets_retry_count d' =
     (if is_busy w then Session._facelets_retry_count d else Session._facelets_retry_count d - 1) /\
   Session._facelets_retry_next_ms d' =
     Session.ticks_add now (if is_busy w then 40 else 200) /\
   Session._last_write_ealready d' = false) /\
  (forall evs : list (Z * Session.write_result),
   Session._last_write_ealready (Session.dispatch g) = false ->
   Forall (fun e => is_busy (snd e) = false) evs ->
   (snd (Session.poll_ticks evs g) <= Z.to_nat (Session._facelets_retry_count (Session.dispatch g)))%nat).
Proof.
  split; [| split].
  - intros H. unfold Session.retry_block.
    replace (0 <? Session._facelets_retry_count d) with false by (symmetry; apply Z.ltb_ge; lia).
    now rewrite andb_false_r.
  - intros Hc Hn Ht Hb He. unfold Session.retry_block.
    rewrite Hc. replace (0 <? Session._facelets_retry_count d) with true by (symmetry; apply Z.ltb_lt; lia).
    replace (0 <=? Session.ticks_diff now (Session._facelets_retry_next_ms d)) with true
      by (symmetry; apply Z.leb_le; lia).
    replace (negb (Session._ble_next_ok_ms g =? 0) &&
             (Session.ticks_diff now (Session._ble_next_ok_ms g) <? 0)) with false.
    2: { destruct Hb as [Hb | Hb]; [now rewrite Hb |].
         replace (Session.ticks_diff now (Session._ble_next_ok_ms g) <? 0) with false
           by (symmetry; apply Z.ltb_ge; lia).
         now rewrite andb_false_r. }
    simpl andb. cbv iota. rewrite He.
    destruct w; simpl; repeat split; reflexivity.
  - intros evs. clear now w d. revert g.
    induction evs as [| [t w] evs IH]; intros g He Hf; [simpl; lia |].
    inversion Hf as [| e l Hw Hf' E]; subst. simpl in Hw.
    pose proof (poll_tick_tail_nonbusy t w g He Hw) as Hs.
    simpl. destruct (Session.poll_tick_tail t w g) as [g1 attempted].
    destruct Hs as [He1 Hc1].
    specialize (IH g1 He1 Hf').
    destruct (Session.poll_ticks evs g1) as [g2 n]. simpl in IH |- *.
    destruct attempted; lia.
Qed.

Lemma retry_block_outcomes_witness :
  (let g := connected_session in
   let '(d', attempted) := Session.retry_block 1000 Session.WriteError g (Session.dispatch g) in
   attempted = true /\
   Session._facelets_retry_count d' = 0 /\
   Session._facelets_retry_next_ms d' = Session.ticks_add 1000 200 /\
   Session._last_write_ealready d' = false) /\
  (snd (Session.poll_ticks [(1000%Z, Session.WriteError); (1200%Z, Session.WriteError);
                            (1400%Z, Session.WriteOk)] connected_session) <= 1)%nat.
Proof.
  split.
  - exact (proj1 (proj2 (retry_block_outcomes 1000 Session.WriteError connected_session
                            (Session.dispatch connected_session)))
             eq_refl ltac:(vm_compute; reflexivity) ltac:(vm_compute; discriminate)
             (or_introl eq_refl) eq_refl).
  - apply (proj2 (proj2 (retry_block_outcomes 0 Session.WriteOk connected_session
                            (Session.dispatch connected_session)))).
    + reflexivity.
    + repeat constructor.
Defined.

(** ** Disconnect *)

(** C7 (code bug): the disconnect branch of [_irq] for the current
    connection clears the connection and the retry state but not
    [_cccd_queue], and the connect branch does not clear it either; so at
    the first tick of the next connection, whatever its handle [h'] and the
    tick's times, [_poll_tick] writes the CCCD of a value handle [vh] found
    on the old connection to the new one. *)
Theorem stale_cccd_written_to_next_connection (h h' vh now t1 t2 : Z) (rest addr : list Z)
    (n : Main.Node) :
  Session._conn (Main.globals n) = Some h ->
  Session._cccd_queue (Main.globals n) = vh :: rest ->
  let n1 := fst (Main.on_disconnect h n) in
  let n2 := fst (Main.on_connect h' addr n1) in
  Session._conn (Main.globals n1) = None /\
  Session._facelets_retry_count (Session.dispatch (Main.globals n1)) = 0 /\
  Session._cccd_queue (Main.globals n1) = vh :: rest /\
  Session._conn (Main.globals n2) = Some h' /\
  hd_error (snd (Session.cccd_stage now t1 t2 (Main.globals n2))) = Some (h', vh + 1).
Proof.
  intros Hc Hq n1 n2.
  unfold n2, n1, Main.on_connect, Main.on_disconnect, Session.on_disconnect.
  rewrite Hc, Z.eqb_refl. cbn. rewrite Hq.
  destruct (Gan.derive_key_iv_from_mac _) as [[k v] |]; cbn;
    (split; [reflexivity | split; [reflexivity | split; [reflexivity | split; [reflexivity |]]]]);
    unfold Session.cccd_stage; cbn;
    destruct (Session.cccd_step _ _ _) as [[g2 w2] |]; reflexivity.
Qed.

Lemma stale_cccd_written_to_next_connection_witness :
  let n2 := fst (Main.on_connect 1 KNOWN_MAC_BYTES (fst (Main.on_disconnect 0 alarm_node))) in
  Session._conn (Main.globals n2) = Some 1 /\
  hd_error (snd (Session.cccd_stage 0 0 0 (Main.globals n2))) = Some (1, 14).
Proof.
  pose proof (stale_cccd_written_to_next_connection 0 1 13 0 0 0 [] KNOWN_MAC_BYTES alarm_node
                eq_refl eq_refl) as H.
  cbv zeta in H. destruct H as (_ & _ & _ & H1 & H2).
  split; [exact H1 | exact H2].
Defined.

(* ======================================================================== *)
(** * Further properties of the code *)

(** ** Slices *)

Lemma slice_length {X} (l : list X) (a b : nat) :
  (a <= b)%nat -> (b <= length l)%nat -> length (Py.slice l a b) = (b - a)%nat.
Proof. intros H1 H2. unfold Py.slice. rewrite length_firstn, length_skipn. lia. Qed.

Lemma setslice_length {X} (l x : list X) (a : nat) :
  (a + length x <= length l)%nat -> length (Py.setslice l a (a + length x) x) = length l.
Proof.
  intros H. unfold Py.setslice. rewrite !List.length_app, length_firstn, length_skipn. lia.
Qed.

Lemma slice_setslice {X} (l x : list X) (a : nat) :
  (a + length x <= length l)%nat -> Py.slice (Py.setslice l a (a + length x) x) a (a + length x) = x.
Proof.
  intros H. unfold Py.slice, Py.setslice.
  assert (Hf : length (firstn a l) = a) by (rewrite length_firstn; lia).
  rewrite skipn_app, (skipn_all2 (firstn a l)) by lia.
  rewrite Hf, Nat.sub_diag, skipn_O. simpl.
  replace (a + length x - a)%nat with (length x) by lia.
  rewrite firstn_app, firstn_all, Nat.sub_diag, firstn_O, app_nil_r. reflexivity.
Qed.

Lemma setslice_setslice {X} (l x y : list X) (a : nat) :
  (a + length x <= length l)%nat -> length y = length x ->
  Py.setslice (Py.setslice l a (a + length x) x) a (a + length x) y = Py.setslice l a (a + length x) y.
Proof.
  intros H Hy. unfold Py.setslice.
  assert (Hf : length (firstn a l) = a) by (rewrite length_firstn; lia).
  rewrite firstn_app, Hf, Nat.sub_diag, firstn_O, app_nil_r, firstn_firstn, Nat.min_id.
  rewrite skipn_app, (skipn_all2 (firstn a l)) by lia. rewrite Hf.
  replace (a + length x - a)%nat with (length x) by lia.
  rewrite skipn_app, skipn_all, Nat.sub_diag, skipn_O. reflexivity.
Qed.

Lemma setslice_slice {X} (l : list X) (a b : nat) :
  (a <= b)%nat -> (b <= length l)%nat -> Py.setslice l a b (Py.slice l a b) = l.
Proof.
  intros H1 H2. unfold Py.setslice, Py.slice.
  replace b with (b - a + a)%nat at 2 by lia.
  rewrite <- skipn_skipn, firstn_skipn, firstn_skipn. reflexivity.
Qed.

(** ** The codec on any packet length *)

(** Replacing a 16-byte window by a 16-byte value keeps the length. *)
Lemma window_length (l : list Z) (a : nat) (f : list Z -> list Z) :
  (a + 16 <= length l)%nat ->
  (forall b, length b = 16%nat -> length (f b) = 16%nat) ->
  length (Py.setslice l a (a + 16) (f (Py.slice l a (a + 16)))) = length l.
Proof.
  intros H Hf.
  assert (Hs : length (f (Py.slice l a (a + 16))) = 16%nat)
    by (apply Hf; rewrite slice_length; lia).
  pose proof (setslice_length l (f (Py.slice l a (a + 16))) a) as E.
  rewrite Hs in E. apply E. lia.
Qed.

Section CodecLength.
Variable A : Cipher.
Variables key iv : list Z.
Hypothesis Hiv : length iv = 16%nat.

Lemma cbc_decrypt_block_length (blk : list Z) :
  length (c_dec A key blk) = 16%nat -> length (cbc_decrypt_block A key iv blk) = 16%nat.
Proof. intros H. unfold cbc_decrypt_block. rewrite xor_bytes_length, H, Hiv. reflexivity. Qed.

Lemma cbc_encrypt_block_inverse (blk : list Z) :
  length blk = 16%nat ->
  (length (c_enc A key (Py.xor_bytes blk iv)) = 16%nat /\
   c_dec A key (c_enc A key (Py.xor_bytes blk iv)) = Py.xor_bytes blk iv) ->
  length (cbc_encrypt_block A key iv blk) = 16%nat /\
  cbc_decrypt_block A key iv (cbc_encrypt_block A key iv blk) = blk.
Proof.
  intros Hb [Hl Hd]. split; [exact Hl |].
  unfold cbc_decrypt_block, cbc_encrypt_block. rewrite Hd.
  apply xor_bytes_involutive. lia.
Qed.

Hypothesis Hdec : forall b, length b = 16%nat -> length (c_dec A key b) = 16%nat.

Lemma dec_last_first_length (src : list Z) :
  (16 <= length src)%nat -> length (Gan._dec_last_first A src key iv) = length src.
Proof.
  intros Hn. unfold Gan._dec_last_first.
  assert (Hf : forall b, length b = 16%nat -> length (cbc_decrypt_block A key iv b) = 16%nat)
    by (intros b Hb; apply cbc_decrypt_block_length, Hdec, Hb).
  destruct (16 <? length src)%nat.
  - assert (L1 : forall n0, n0 = (length src - 16)%nat ->
              length (Py.setslice src n0 (n0 + 16)
                        (cbc_decrypt_block A key iv (Py.slice src n0 (n0 + 16)))) = length src)
      by (intros n0 ->; apply window_length; [lia | exact Hf]).
    rewrite (window_length _ 0 _); [apply L1; reflexivity | rewrite L1; [lia | reflexivity] | exact Hf].
  - apply (window_length _ 0); [lia | exact Hf].
Qed.

Lemma dec_first_last_length (src : list Z) :
  (16 <= length src)%nat -> length (Gan._dec_first_last A src key iv) = length src.
Proof.
  intros Hn. unfold Gan._dec_first_last.
  assert (Hf : forall b, length b = 16%nat -> length (cbc_decrypt_block A key iv b) = 16%nat)
    by (intros b Hb; apply cbc_decrypt_block_length, Hdec, Hb).
  assert (H0 : length (Py.setslice src 0 16 (cbc_decrypt_block A key iv (Py.slice src 0 16)))
               = length src) by exact (window_length src 0 _ ltac:(lia) Hf).
  destruct (16 <? length src)%nat; [| exact H0].
  rewrite (window_length _ (length src - 16) _); [exact H0 | rewrite H0; lia | exact Hf].
Qed.

End CodecLength.

(** X1: [decrypt_packet] refuses exactly the packets shorter than 16 bytes;
    with a 16-byte IV and a cipher that decrypts 16-byte blocks to 16-byte
    blocks, every other packet gives a result of the packet's own length. *)
Theorem decrypt_packet_length (A : Cipher) (pkt key iv : list Z) :
  ((length pkt < 16)%nat -> Gan.decrypt_packet A pkt key iv = None) /\
  (length iv = 16%nat ->
   (forall b, length b = 16%nat -> length (c_dec A key b) = 16%nat) ->
   (16 <= length pkt)%nat ->
   exists clear, Gan.decrypt_packet A pkt key iv = Some clear /\ length clear = length pkt).
Proof.
  split.
  - intros H. unfold Gan.decrypt_packet.
    now replace (length pkt <? 16)%nat with true by (symmetry; apply Nat.ltb_lt; lia).
  - intros Hiv Hdec Hn. unfold Gan.decrypt_packet.
    replace (length pkt <? 16)%nat with false by (symmetry; apply Nat.ltb_ge; lia).
    pose proof (dec_last_first_length A key iv Hiv Hdec pkt Hn) as L1.
    pose proof (dec_first_last_length A key iv Hiv Hdec pkt Hn) as L2.
    destruct (Gan.starts_55 pkt && (2 <=? length pkt)%nat); [eauto |].
    destruct (Gan.starts_55 (Gan._dec_last_first A pkt key iv)); [eauto |].
    destruct (Gan.starts_55 (Gan._dec_first_last A pkt key iv)); eauto.
Qed.

Lemma aes_decrypt_known_key_length (b : list Z) : length (AES.decrypt known_key b) = 16%nat.
Proof.
  unfold AES.decrypt, AES.add_round_key. cbv zeta.
  rewrite xor_bytes_length.
  unfold AES.inv_sub_bytes, AES.inv_shift_rows. rewrite length_map, length_map, length_seq.
  replace (length (AES.round_key (AES.key_words known_key) 0)) with 16%nat
    by (vm_compute; reflexivity).
  reflexivity.
Qed.

Lemma aes_encrypt_known_key_length (b : list Z) : length (AES.encrypt known_key b) = 16%nat.
Proof.
  unfold AES.encrypt, AES.add_round_key. cbv zeta.
  rewrite xor_bytes_length.
  unfold AES.sub_bytes, AES.shift_rows. rewrite length_map, length_seq.
  replace (length (AES.round_key (AES.key_words known_key) 10)) with 16%nat
    by (vm_compute; reflexivity).
  reflexivity.
Qed.

Lemma decrypt_packet_length_witness :
  exists clear, Gan.decrypt_packet aes128 (repeat 0 20) known_key known_iv = Some clear /\
                length clear = length (repeat 0 20).
Proof.
  apply (proj2 (decrypt_packet_length aes128 (repeat 0 20) known_key known_iv)).
  - vm_compute. reflexivity.
  - intros b _. apply aes_decrypt_known_key_length.
  - simpl. lia.
Defined.

(** X2: with a 16-byte IV and a cipher that encrypts 16-byte blocks to
    16-byte blocks, [encrypt_packet] of a plaintext of at least 16 bytes
    has the plaintext's length. *)
Theorem encrypt_packet_length (A : Cipher) (data key iv : list Z) :
  length iv = 16%nat ->
  (forall b, length b = 16%nat -> length (c_enc A key b) = 16%nat) ->
  (16 <= length data)%nat ->
  exists c, Gan.encrypt_packet A data key iv = Some c /\ length c = length data.
Proof.
  intros Hiv Henc Hn. unfold Gan.encrypt_packet.
  replace (length data <? 16)%nat with false by (symmetry; apply Nat.ltb_ge; lia).
  assert (Hf : forall b, length b = 16%nat -> length (cbc_encrypt_block A key iv b) = 16%nat).
  { intros b Hb. apply Henc. rewrite xor_bytes_length, Hb, Hiv. reflexivity. }
  assert (H0 : length (Py.setslice data 0 16 (cbc_encrypt_block A key iv (Py.slice data 0 16)))
               = length data) by exact (window_length data 0 _ ltac:(lia) Hf).
  eexists. split; [reflexivity |].
  destruct (16 <? length data)%nat; [| exact H0].
  rewrite (window_length _ (length data - 16) _); [exact H0 | rewrite H0; lia | exact Hf].
Qed.

Lemma encrypt_packet_length_witness :
  exists c, Gan.encrypt_packet aes128 (repeat 0 20) known_key known_iv = Some c /\
            length c = length (repeat 0 20).
Proof.
  apply (encrypt_packet_length aes128 (repeat 0 20) known_key known_iv).
  - vm_compute. reflexivity.
  - intros b _. apply aes_encrypt_known_key_length.
  - simpl. lia.
Defined.

(** 16-byte windows: reading back, overwriting twice, writing back. *)
Lemma win_get_set (l x : list Z) (a : nat) :
  (a + 16 <= length l)%nat -> length x = 16%nat ->
  Py.slice (Py.setslice l a (a + 16) x) a (a + 16) = x.
Proof. intros H Hx. rewrite <- Hx. apply slice_setslice. lia. Qed.

Lemma win_set_set (l x y : list Z) (a : nat) :
  (a + 16 <= length l)%nat -> length x = 16%nat -> length y = 16%nat ->
  Py.setslice (Py.setslice l a (a + 16) x) a (a + 16) y = Py.setslice l a (a + 16) y.
Proof. intros H Hx Hy. rewrite <- Hx. apply setslice_setslice; lia. Qed.

Lemma win_set_get (l : list Z) (a : nat) :
  (a + 16 <= length l)%nat -> Py.setslice l a (a + 16) (Py.slice l a (a + 16)) = l.
Proof. intros H. apply setslice_slice; lia. Qed.

Lemma win_slice_length (l : list Z) (a : nat) :
  (a + 16 <= length l)%nat -> length (Py.slice l a (a + 16)) = 16%nat.
Proof. intros H. rewrite slice_length; lia. Qed.

Section Roundtrip.
Variable A : Cipher.
Variables key iv : list Z.
Hypothesis Hiv : length iv = 16%nat.
Hypothesis Hinv : forall b, length b = 16%nat -> block_invertible A key b.

Lemma cbc_roundtrip16 (b : list Z) :
  length b = 16%nat ->
  length (cbc_encrypt_block A key iv b) = 16%nat /\
  cbc_decrypt_block A key iv (cbc_encrypt_block A key iv b) = b.
Proof.
  intros Hb. apply (cbc_encrypt_block_inverse A key iv Hiv b Hb).
  apply Hinv. rewrite xor_bytes_length, Hb, Hiv. reflexivity.
Qed.

Lemma dec_last_first_encrypt (data : list Z) :
  (16 <= length data)%nat ->
  exists c, Gan.encrypt_packet A data key iv = Some c /\ length c = length data /\
            Gan._dec_last_first A c key iv = data.
Proof.
  intros Hn. unfold Gan.encrypt_packet.
  replace (length data <? 16)%nat with false by (symmetry; apply Nat.ltb_ge; lia).
  set (x0 := Py.slice data 0 (0 + 16)).
  assert (Lx0 : length x0 = 16%nat) by (apply win_slice_length; lia).
  destruct (cbc_roundtrip16 x0 Lx0) as [Le0 De0].
  set (e1 := Py.setslice data 0 (0 + 16) (cbc_encrypt_block A key iv x0)).
  assert (Le1 : length e1 = length data).
  { unfold e1. rewrite <- Le0. apply setslice_length. lia. }
  assert (Back0 : Py.setslice e1 0 (0 + 16) (cbc_decrypt_block A key iv (Py.slice e1 0 (0 + 16))) = data).
  { unfold e1. rewrite win_get_set, De0 by lia.
    rewrite win_set_set by (try lia; apply win_slice_length; lia).
    apply win_set_get. lia. }
  change (Py.setslice data 0 16 (cbc_encrypt_block A key iv (Py.slice data 0 16))) with e1.
  unfold Gan._dec_last_first. cbv zeta.
  destruct (16 <? length data)%nat eqn:E; cbv zeta.
  - set (m := (length data - 16)%nat).
    assert (Hm : (m + 16 <= length e1)%nat) by (unfold m; lia).
    set (xm := Py.slice e1 m (m + 16)).
    assert (Lxm : length xm = 16%nat) by (apply win_slice_length; exact Hm).
    destruct (cbc_roundtrip16 xm Lxm) as [Lem Dem].
    set (c := Py.setslice e1 m (m + 16) (cbc_encrypt_block A key iv xm)).
    assert (Lc : length c = length data).
    { unfold c. rewrite <- Le1, <- Lem. apply setslice_length. lia. }
    exists c. split; [reflexivity | split; [exact Lc |]].
    rewrite Lc, E. fold m.
    replace (Py.setslice c m (m + 16) (cbc_decrypt_block A key iv (Py.slice c m (m + 16)))) with e1.
    + exact Back0.
    + unfold c. rewrite win_get_set, Dem by lia.
      rewrite win_set_set by lia. unfold xm. symmetry. apply win_set_get. exact Hm.
  - exists e1. split; [reflexivity | split; [exact Le1 |]].
    rewrite Le1, E. exact Back0.
Qed.

End Roundtrip.

(** X3: with a 16-byte IV and a block cipher that inverts every encrypted
    16-byte block, [encrypt_packet] of any payload of at least 16 bytes
    (also when its two windows overlap, 16 < n < 32) keeps the length and
    is undone by [_dec_last_first]; so [decrypt_packet] gives back a payload
    starting with 0x55 whenever the ciphertext does not start with 0x55. *)
Theorem encrypt_packet_dec_last_first (A : Cipher) (data key iv : list Z) :
  length iv = 16%nat ->
  (forall b, length b = 16%nat -> block_invertible A key b) ->
  (16 <= length data)%nat ->
  exists c, Gan.encrypt_packet A data key iv = Some c /\ length c = length data /\
            Gan._dec_last_first A c key iv = data /\
            (Gan.starts_55 data = true -> Gan.starts_55 c = false ->
             Gan.decrypt_packet A c key iv = Some data).
Proof.
  intros Hiv Hinv Hn.
  destruct (dec_last_first_encrypt A key iv Hiv Hinv data Hn) as (c & Ec & Lc & Dc).
  exists c. do 3 (split; [assumption |]).
  intros S55 C55. unfold Gan.decrypt_packet.
  replace (length c <? 16)%nat with false by (symmetry; apply Nat.ltb_ge; lia).
  rewrite C55. simpl. rewrite Dc, S55. reflexivity.
Qed.

Lemma xor_cipher_invertible (b : list Z) :
  length b = 16%nat -> block_invertible xor_cipher known_key b.
Proof.
  intros Hb. unfold block_invertible. simpl.
  assert (Lk : length known_key = 16%nat) by reflexivity.
  rewrite xor_bytes_length, Hb, Lk. split; [reflexivity |].
  apply xor_bytes_involutive. lia.
Qed.

Lemma encrypt_packet_dec_last_first_witness :
  exists c, Gan.encrypt_packet xor_cipher (85 :: repeat 0 19) known_key known_iv = Some c /\
            length c = length (85 :: repeat 0 19) /\
            Gan._dec_last_first xor_cipher c known_key known_iv = 85 :: repeat 0 19 /\
            (Gan.starts_55 (85 :: repeat 0 19) = true -> Gan.starts_55 c = false ->
             Gan.decrypt_packet xor_cipher c known_key known_iv = Some (85 :: repeat 0 19)).
Proof.
  apply (encrypt_packet_dec_last_first xor_cipher (85 :: repeat 0 19) known_key known_iv).
  - reflexivity.
  - exact xor_cipher_invertible.
  - simpl. lia.
Defined.

(** ** Key derivation: the derived bytes, and collisions *)

(** The key and IV of an accepted address, byte by byte. *)
Lemma derive_key_iv_bytes (mac : string) :
  (length (mac_clean mac) = 12%nat \/ length (mac_clean mac) = 32%nat) ->
  forallb is_hex (firstn 12 (mac_clean mac)) = true ->
  Gan.derive_key_iv_from_mac mac =
    Some (map (fun i => if (i <? 6)%nat then (nth i Gan.BASE_KEY 0 + salt_byte (mac_clean mac) i) mod 255
                        else nth i Gan.BASE_KEY 0) (seq 0 16),
          map (fun i => if (i <? 6)%nat then (nth i Gan.BASE_IV 0 + salt_byte (mac_clean mac) i) mod 255
                        else nth i Gan.BASE_IV 0) (seq 0 16)).
Proof.
  intros Hl Hh. rewrite derive_salt, (derive_salt_accepted mac Hl Hh).
  generalize (salt_byte (mac_clean mac)). intros sb. reflexivity.
Qed.

(** X4: [derive_key_iv_from_mac] reads each salt byte only modulo 255: two
    accepted addresses whose first six bytes agree modulo 255 (for instance
    a byte 0xFF in one and 0x00 in the other) get the same key and IV. *)
Theorem derive_key_iv_mod255 (mac1 mac2 : string) :
  (length (mac_clean mac1) = 12%nat \/ length (mac_clean mac1) = 32%nat) ->
  forallb is_hex (firstn 12 (mac_clean mac1)) = true ->
  (length (mac_clean mac2) = 12%nat \/ length (mac_clean mac2) = 32%nat) ->
  forallb is_hex (firstn 12 (mac_clean mac2)) = true ->
  (forall i, (i < 6)%nat -> salt_byte (mac_clean mac1) i mod 255 = salt_byte (mac_clean mac2) i mod 255) ->
  Gan.derive_key_iv_from_mac mac1 = Gan.derive_key_iv_from_mac mac2.
Proof.
  intros L1 H1 L2 H2 Hs.
  rewrite (derive_key_iv_bytes mac1 L1 H1), (derive_key_iv_bytes mac2 L2 H2).
  f_equal. f_equal; apply map_ext_in; intros i Hi; apply in_seq in Hi;
  destruct (i <? 6)%nat eqn:E; try reflexivity; apply Nat.ltb_lt in E;
  rewrite <- Z.add_mod_idemp_r, Hs, Z.add_mod_idemp_r by (lia || discriminate); reflexivity.
Qed.

Lemma derive_key_iv_mod255_witness :
  Gan.derive_key_iv_from_mac "00:00:00:00:00:00" = Gan.derive_key_iv_from_mac "FF:00:00:00:00:00".
Proof.
  apply derive_key_iv_mod255.
  - left. vm_compute. reflexivity.
  - vm_compute. reflexivity.
  - left. vm_compute. reflexivity.
  - vm_compute. reflexivity.
  - intros i Hi. do 6 (destruct i as [| i]; [vm_compute; reflexivity |]). lia.
Defined.

(** ** The address formats of main.py *)

Lemma hex_char_ok (d : Z) :
  0 <= d < 16 ->
  Gan.upper_char (Main.hex_char d) = Main.hex_char d /\
  Ascii.eqb (Main.hex_char d) ":"%char = false /\ Ascii.eqb (Main.hex_char d) "-"%char = false /\
  Gan.hex_digit (Main.hex_char d) = Some d.
Proof.
  intros H. assert (Hn : (Z.to_nat d < 16)%nat) by lia.
  rewrite <- (Z2Nat.id d) by lia. unfold Main.hex_char. rewrite Nat2Z.id.
  destruct (Z.to_nat d) as [| n]; [repeat split; reflexivity |].
  do 15 (destruct n as [| n]; [repeat split; reflexivity |]). lia.
Qed.

Lemma byte_digits (x : Z) : is_byte x -> 0 <= x / 16 < 16 /\ 0 <= x mod 16 < 16.
Proof.
  unfold is_byte. intros H. split.
  - split; [apply Z.div_pos; lia | apply Z.div_lt_upper_bound; lia].
  - apply Z.mod_pos_bound. lia.
Qed.

Lemma strip_fmt02X (x : Z) : is_byte x -> Gan.strip_separators (Main.fmt02X x) = Main.fmt02X x.
Proof.
  intros H. destruct (byte_digits x H) as [D1 D2].
  destruct (hex_char_ok _ D1) as (_ & A1 & B1 & _), (hex_char_ok _ D2) as (_ & A2 & B2 & _).
  unfold Main.fmt02X, Gan.strip_separators. simpl. rewrite A1, B1, A2, B2. reflexivity.
Qed.

Lemma strip_join_fmt02X (l : list Z) :
  Forall is_byte l ->
  Gan.strip_separators (Main.join [":"%char] (map Main.fmt02X l)) = concat (map Main.fmt02X l).
Proof.
  induction l as [| x [| y t] IH]; intros Hl; [reflexivity | |].
  - simpl. rewrite ?app_nil_r. apply strip_fmt02X. now inversion Hl.
  - inversion Hl as [| ? ? Hx Ht]; subst.
    change (Main.join [":"%char] (map Main.fmt02X (x :: y :: t)))
      with (Main.fmt02X x ++ [":"%char] ++ Main.join [":"%char] (map Main.fmt02X (y :: t))).
    unfold Gan.strip_separators in *. rewrite !filter_app, IH by exact Ht.
    pose proof (strip_fmt02X x Hx) as Sx. unfold Gan.strip_separators in Sx. rewrite Sx. reflexivity.
Qed.

Lemma upper_fmt02X (l : list Z) :
  Forall is_byte l -> Gan.upper (concat (map Main.fmt02X l)) = concat (map Main.fmt02X l).
Proof.
  induction l as [| x t IH]; intros Hl; [reflexivity |].
  inversion Hl as [| ? ? Hx Ht]; subst. destruct (byte_digits x Hx) as [D1 D2].
  destruct (hex_char_ok _ D1) as (U1 & _), (hex_char_ok _ D2) as (U2 & _).
  simpl. unfold Gan.upper in *. simpl. rewrite U1, U2, IH by exact Ht. reflexivity.
Qed.

Lemma fromhex_fmt02X (l : list Z) :
  Forall is_byte l -> Gan.fromhex (concat (map Main.fmt02X l)) = Some l.
Proof.
  induction l as [| x t IH]; intros Hl; [reflexivity |].
  inversion Hl as [| ? ? Hx Ht]; subst. destruct (byte_digits x Hx) as [D1 D2].
  destruct (hex_char_ok _ D1) as (_ & _ & _ & H1), (hex_char_ok _ D2) as (_ & _ & _ & H2).
  simpl. rewrite H1, H2, IH by exact Ht.
  f_equal. f_equal. rewrite (Z.div_mod x 16) at 3 by lia. reflexivity.
Qed.

Lemma length_fmt02X (l : list Z) : length (concat (map Main.fmt02X l)) = (2 * length l)%nat.
Proof. induction l as [| x t IH]; [reflexivity | simpl; rewrite IH; lia]. Qed.

Lemma salt_byte_fmt02X (l : list Z) (i : nat) :
  Forall is_byte l -> (i < length l)%nat -> salt_byte (concat (map Main.fmt02X l)) i = nth i l 0.
Proof.
  revert i. induction l as [| x t IH]; intros i Hl Hi; [simpl in Hi; lia |].
  inversion Hl as [| ? ? Hx Ht]; subst. destruct (byte_digits x Hx) as [D1 D2].
  destruct i as [| i].
  - destruct (hex_char_ok _ D1) as (_ & _ & _ & H1), (hex_char_ok _ D2) as (_ & _ & _ & H2).
    unfold salt_byte, hex_value. cbn [nth concat map app Main.fmt02X Nat.mul Nat.add]. rewrite H1, H2.
    symmetry. apply Z.div_mod. lia.
  - simpl concat. unfold Main.fmt02X at 1. simpl app.
    rewrite salt_byte_cons. apply IH; [exact Ht | simpl in Hi; lia].
Qed.

Lemma norm_join_fmt02X (l : list Z) :
  Forall is_byte l ->
  Main._norm (string_of_list_ascii (Main.join [":"%char] (map Main.fmt02X l))) =
  string_of_list_ascii (concat (map Main.fmt02X l)).
Proof.
  intros Hl. unfold Main._norm. rewrite list_ascii_of_string_of_list_ascii.
  rewrite strip_join_fmt02X, upper_fmt02X by exact Hl. reflexivity.
Qed.

Lemma mac_clean_norm_from_le (addr : list Z) :
  Forall is_byte addr -> mac_clean (Main._mac_norm_from_le addr) = concat (map Main.fmt02X (rev addr)).
Proof.
  intros Hl. unfold mac_clean, Main._mac_norm_from_le. rewrite list_ascii_of_string_of_list_ascii.
  rewrite strip_join_fmt02X, upper_fmt02X by (apply Forall_rev; exact Hl). reflexivity.
Qed.

Lemma fmt02X_inj (l1 l2 : list Z) :
  Forall is_byte l1 -> Forall is_byte l2 ->
  string_of_list_ascii (concat (map Main.fmt02X l1)) = string_of_list_ascii (concat (map Main.fmt02X l2)) ->
  l1 = l2.
Proof.
  intros H1 H2 E. apply (f_equal list_ascii_of_string) in E.
  rewrite !list_ascii_of_string_of_list_ascii in E.
  apply (f_equal Gan.fromhex) in E. rewrite !fromhex_fmt02X in E by assumption.
  congruence.
Qed.

(** X5: on a connection while idle, for a 6-byte peer address, the key and
    IV are always derived, from the address bytes in reverse order: byte
    [i < 6] of the key is [(BASE_KEY[i] + addr[5-i]) mod 255], bytes 6-15
    are [BASE_KEY]'s (the same for the IV with [BASE_IV]); service
    discovery starts on the new handle. *)
Theorem on_connect_derives_keys (h : Z) (addr : list Z) (n : Main.Node) :
  Session._conn (Main.globals n) = None ->
  length addr = 6%nat -> Forall is_byte addr ->
  Session._conn (Main.globals (fst (Main.on_connect h addr n))) = Some h /\
  snd (Main.on_connect h addr n) = [Main.DiscoverServices h] /\
  Main._key (fst (Main.on_connect h addr n)) =
    Some (map (fun i => if (i <? 6)%nat then (nth i Gan.BASE_KEY 0 + nth (5 - i) addr 0) mod 255
                        else nth i Gan.BASE_KEY 0) (seq 0 16)) /\
  Main._iv (fst (Main.on_connect h addr n)) =
    Some (map (fun i => if (i <? 6)%nat then (nth i Gan.BASE_IV 0 + nth (5 - i) addr 0) mod 255
                        else nth i Gan.BASE_IV 0) (seq 0 16)).
Proof.
  intros Hc Hl Hb.
  assert (Hb' : Forall is_byte (rev addr)) by (apply Forall_rev; exact Hb).
  assert (Mc := mac_clean_norm_from_le addr Hb).
  assert (L12 : length (mac_clean (Main._mac_norm_from_le addr)) = 12%nat)
    by (rewrite Mc, length_fmt02X, length_rev, Hl; reflexivity).
  assert (Hx : forallb is_hex (firstn 12 (mac_clean (Main._mac_norm_from_le addr))) = true).
  { rewrite firstn_all2 by lia. rewrite Mc. apply (fromhex_some_all_hex _ (rev addr)).
    apply fromhex_fmt02X. exact Hb'. }
  assert (Sb : forall i, (i < 6)%nat -> salt_byte (mac_clean (Main._mac_norm_from_le addr)) i = nth (5 - i) addr 0).
  { intros i Hi. rewrite Mc, salt_byte_fmt02X by (auto; rewrite length_rev; lia).
    rewrite rev_nth by lia. rewrite Hl. reflexivity. }
  unfold Main.on_connect. rewrite Hc.
  rewrite (derive_key_iv_bytes _ (or_introl L12) Hx).
  cbn [fst snd Main._key Main._iv Main.globals Session._conn].
  split; [reflexivity | split; [reflexivity |]].
  split; f_equal; apply map_ext_in; intros i Hi; apply in_seq in Hi;
  destruct (i <? 6)%nat eqn:E; try reflexivity; apply Nat.ltb_lt in E; rewrite Sb by exact E; reflexivity.
Qed.

Lemma on_connect_derives_keys_witness :
  let addr := rev KNOWN_MAC_BYTES in
  Session._conn (Main.globals (fst (Main.on_connect 0 addr idle_node))) = Some 0 /\
  snd (Main.on_connect 0 addr idle_node) = [Main.DiscoverServices 0] /\
  Main._key (fst (Main.on_connect 0 addr idle_node)) =
    Some (map (fun i => if (i <? 6)%nat then (nth i Gan.BASE_KEY 0 + nth (5 - i) addr 0) mod 255
                        else nth i Gan.BASE_KEY 0) (seq 0 16)) /\
  Main._iv (fst (Main.on_connect 0 addr idle_node)) =
    Some (map (fun i => if (i <? 6)%nat then (nth i Gan.BASE_IV 0 + nth (5 - i) addr 0) mod 255
                        else nth i Gan.BASE_IV 0) (seq 0 16)).
Proof.
  apply (on_connect_derives_keys 0 (rev KNOWN_MAC_BYTES) idle_node).
  - reflexivity.
  - reflexivity.
  - unfold is_byte. repeat constructor; lia.
Defined.

Lemma known_mac_norm :
  Main._norm KNOWN_MAC = string_of_list_ascii (concat (map Main.fmt02X KNOWN_MAC_BYTES)).
Proof. vm_compute. reflexivity. Qed.

Lemma known_mac_bytes : Forall is_byte KNOWN_MAC_BYTES.
Proof. unfold is_byte. repeat constructor; lia. Qed.

Lemma norm_fmt02X_known (l : list Z) :
  Forall is_byte l ->
  String.eqb (Main._norm (string_of_list_ascii (Main.join [":"%char] (map Main.fmt02X l))))
             (Main._norm KNOWN_MAC) = true <-> l = KNOWN_MAC_BYTES.
Proof.
  intros Hl. rewrite String.eqb_eq, norm_join_fmt02X, known_mac_norm by exact Hl. split.
  - apply fmt02X_inj; [exact Hl | exact known_mac_bytes].
  - intros ->. reflexivity.
Qed.

Lemma scan_match_iff (addr : list Z) :
  Forall is_byte addr ->
  (String.eqb (Main._norm (Main._mac_norm_from_le addr)) (Main._norm KNOWN_MAC) ||
   String.eqb (Main._norm (Main._mac_direct addr)) (Main._norm KNOWN_MAC)) = true <->
  (rev addr = KNOWN_MAC_BYTES \/ addr = KNOWN_MAC_BYTES).
Proof.
  intros Hl. rewrite orb_true_iff.
  unfold Main._mac_norm_from_le, Main._mac_direct.
  rewrite (norm_fmt02X_known (rev addr)) by (apply Forall_rev; exact Hl).
  rewrite (norm_fmt02X_known addr) by exact Hl. reflexivity.
Qed.

(** X6: for an advertisement from a byte address, the scan handler connects
    exactly when the address is the cube's, read in either byte order, and
    no connection exists or is under way: it then marks the session as
    connecting, stops the scan and connects to that address; otherwise it
    changes nothing and issues nothing. *)
Theorem on_scan_result_connects (addr : list Z) (g : Session.Globals) :
  Forall is_byte addr ->
  (((rev addr = KNOWN_MAC_BYTES \/ addr = KNOWN_MAC_BYTES) /\
    Session._conn g = None /\ Session._connecting g = false) ->
   Main.on_scan_result addr g =
     (Main.set_link g None true (Session._polling g), [Main.GapScanStop; Main.GapConnect addr])) /\
  (~ ((rev addr = KNOWN_MAC_BYTES \/ addr = KNOWN_MAC_BYTES) /\
      Session._conn g = None /\ Session._connecting g = false) ->
   Main.on_scan_result addr g = (g, [])).
Proof.
  intros Hl. pose proof (scan_match_iff addr Hl) as Miff.
  unfold Main.on_scan_result.
  destruct (_ || _) eqn:M; destruct (Session._conn g) eqn:C; destruct (Session._connecting g) eqn:N;
  cbn [andb negb Session.is_some]; split; intros H; try reflexivity; exfalso.
  all: first [ destruct H as (Hm & Hc & Hn); try discriminate; apply Miff in Hm; congruence
             | apply H; split; [apply Miff; reflexivity | split; reflexivity] ].
Qed.

Lemma on_scan_result_connects_witness :
  (((rev (rev KNOWN_MAC_BYTES) = KNOWN_MAC_BYTES \/ rev KNOWN_MAC_BYTES = KNOWN_MAC_BYTES) /\
    Session._conn (Main.globals idle_node) = None /\ Session._connecting (Main.globals idle_node) = false) ->
   Main.on_scan_result (rev KNOWN_MAC_BYTES) (Main.globals idle_node) =
     (Main.set_link (Main.globals idle_node) None true (Session._polling (Main.globals idle_node)),
      [Main.GapScanStop; Main.GapConnect (rev KNOWN_MAC_BYTES)])) /\
  (~ ((rev (rev KNOWN_MAC_BYTES) = KNOWN_MAC_BYTES \/ rev KNOWN_MAC_BYTES = KNOWN_MAC_BYTES) /\
      Session._conn (Main.globals idle_node) = None /\ Session._connecting (Main.globals idle_node) = false) ->
   Main.on_scan_result (rev KNOWN_MAC_BYTES) (Main.globals idle_node) = (Main.globals idle_node, [])).
Proof.
  apply on_scan_result_connects.
  apply Forall_rev. unfold is_byte. repeat constructor; lia.
Defined.

(** ** Bit strings *)

Lemma bin_value_fold (l : Decoder.bitstr) (acc : Z) :
  0 <= acc ->
  acc * 2 ^ Z.of_nat (length l) <=
    fold_left (fun acc (b : bool) => 2 * acc + (if b then 1 else 0)) l acc <
  (acc + 1) * 2 ^ Z.of_nat (length l).
Proof.
  revert acc. induction l as [| b t IH]; intros acc Hacc; cbn [fold_left length]; [simpl; lia |].
  assert (Hb : 0 <= (if b then 1 else 0) <= 1) by (destruct b; lia).
  specialize (IH (2 * acc + (if b then 1 else 0)) ltac:(lia)).
  rewrite Nat2Z.inj_succ, Z.pow_succ_r by lia.
  assert (HP : 0 < 2 ^ Z.of_nat (length t)) by (apply Z.pow_pos_nonneg; lia).
  nia.
Qed.

Lemma bin_value_bound (l : Decoder.bitstr) : 0 <= Decoder.bin_value l < 2 ^ Z.of_nat (length l).
Proof.
  pose proof (bin_value_fold l 0 ltac:(lia)) as H. unfold Decoder.bin_value.
  pose proof (Z.pow_pos_nonneg 2 (Z.of_nat (length l))). lia.
Qed.

(** X7: [get_bits] of a non-empty field returns -1 exactly when the field
    runs past the end of the bit string, and otherwise a value in
    [0, 2^num_bits). *)
Theorem get_bits_range (bits : Decoder.bitstr) (s k : nat) :
  (0 < k)%nat ->
  (Decoder.get_bits bits s k = -1 <-> (length bits < s + k)%nat) /\
  ((s + k <= length bits)%nat -> 0 <= Decoder.get_bits bits s k < 2 ^ Z.of_nat k).
Proof.
  intros Hk. unfold Decoder.get_bits.
  replace (k =? 0)%nat with false by (symmetry; apply Nat.eqb_neq; lia).
  pose proof (bin_value_bound (Py.slice bits s (s + k))) as B.
  destruct (length bits <? s + k)%nat eqn:E.
  - apply Nat.ltb_lt in E. split; [split; [lia | reflexivity] | lia].
  - apply Nat.ltb_ge in E. rewrite slice_length in B by lia.
    replace (s + k - s)%nat with k in B by lia.
    split; [split; [lia | lia] | intros _; exact B].
Qed.

Lemma get_bits_range_witness :
  (Decoder.get_bits [true; false; true] 2 2 = -1 <-> (length [true; false; true] < 2 + 2)%nat) /\
  ((2 + 2 <= length [true; false; true])%nat ->
   0 <= Decoder.get_bits [true; false; true] 2 2 < 2 ^ Z.of_nat 2).
Proof. apply get_bits_range. lia. Defined.

Lemma byte_bits_value (b : Z) : is_byte b -> Decoder.bin_value (Decoder.byte_bits b) = b.
Proof.
  intros Hb.
  assert (All : forallb (fun x => Decoder.bin_value (Decoder.byte_bits x) =? x)
                  (map Z.of_nat (seq 0 256)) = true) by (vm_compute; reflexivity).
  rewrite forallb_forall in All. apply Z.eqb_eq, All.
  apply in_map_iff. exists (Z.to_nat b). unfold is_byte in Hb.
  split; [lia | apply in_seq; lia].
Qed.

(** X8: reading 8 bits at bit [8i] of [_bits_from_bytes data] gives back
    byte [i] of [data]. *)
Theorem get_bits_bits_from_bytes (data : list Z) (i : nat) :
  Forall is_byte data -> (i < length data)%nat ->
  Decoder.get_bits (Decoder._bits_from_bytes data) (8 * i) 8 = nth i data 0.
Proof.
  revert i. induction data as [| x t IH]; intros i Hb Hi; [simpl in Hi; lia |].
  inversion Hb as [| ? ? Hx Ht]; subst.
  change (Decoder._bits_from_bytes (x :: t)) with (Decoder.byte_bits x ++ Decoder._bits_from_bytes t).
  destruct i as [| i].
  - unfold Decoder.get_bits. simpl (8 =? 0)%nat. cbv iota.
    rewrite List.length_app, byte_bits_length.
    replace (8 + length (Decoder._bits_from_bytes t) <? 8 * 0 + 8)%nat with false
      by (symmetry; apply Nat.ltb_ge; lia).
    unfold Py.slice. rewrite Nat.mul_0_r, skipn_O. change (0 + 8 - 0)%nat with 8%nat.
    rewrite firstn_app, byte_bits_length, Nat.sub_diag, firstn_O, app_nil_r.
    rewrite <- (byte_bits_length x), firstn_all. simpl nth. apply byte_bits_value. exact Hx.
  - replace (8 * S i)%nat with (length (Decoder.byte_bits x) + 8 * i)%nat
      by (rewrite byte_bits_length; lia).
    rewrite get_bits_app. apply IH; [exact Ht | simpl in Hi; lia].
Qed.

Lemma get_bits_bits_from_bytes_witness :
  Decoder.get_bits (Decoder._bits_from_bytes KNOWN_MAC_BYTES) (8 * 3) 8 = nth 3 KNOWN_MAC_BYTES 0.
Proof.
  apply get_bits_bits_from_bytes.
  - exact known_mac_bytes.
  - simpl. lia.
Defined.

(** X9: variant 4 of the facelets search (bits LSB-first of the reversed
    bytes) is always the same bit string as variant 7 (the whole MSB-first
    bit string reversed), so the search tries that string twice. *)
Theorem revbits_reverse_is_reversed_bits (clear : list Z) :
  Decoder._bits_from_bytes_revbits (Decoder._reverse_bytes clear) = rev (Decoder._bits_from_bytes clear) /\
  nth 3 (Decoder.variants clear) [] = nth 6 (Decoder.variants clear) [].
Proof.
  assert (E : Decoder._bits_from_bytes_revbits (Decoder._reverse_bytes clear) =
              rev (Decoder._bits_from_bytes clear)).
  { unfold Decoder._bits_from_bytes_revbits, Decoder._reverse_bytes, Decoder._bits_from_bytes.
    induction clear as [| x t IH]; [reflexivity |].
    cbn [rev flat_map]. rewrite flat_map_app, IH, rev_app_distr. cbn [flat_map]. rewrite app_nil_r. reflexivity. }
  split; [exact E | exact E].
Qed.

(** X10: [_swap_nibbles_bytes] maps bytes to bytes and undoes itself. *)
Theorem swap_nibbles_involutive (data : list Z) :
  Forall is_byte data ->
  Forall is_byte (Decoder._swap_nibbles_bytes data) /\
  Decoder._swap_nibbles_bytes (Decoder._swap_nibbles_bytes data) = data.
Proof.
  set (f := fun b => Z.lor (Z.shiftl (Z.land b 15) 4) (Z.shiftr (Z.land b 240) 4)).
  assert (All : forallb (fun x => (0 <=? f x) && (f x <? 256) && (f (f x) =? x))
                  (map Z.of_nat (seq 0 256)) = true) by (vm_compute; reflexivity).
  rewrite forallb_forall in All.
  assert (P : forall b, is_byte b -> is_byte (f b) /\ f (f b) = b).
  { intros b Hb. unfold is_byte in *.
    assert (Hin : In b (map Z.of_nat (seq 0 256)))
      by (apply in_map_iff; exists (Z.to_nat b); split; [lia | apply in_seq; lia]).
    specialize (All b Hin). apply andb_prop in All as [A1 A2]. apply andb_prop in A1 as [A0 A1].
    apply Z.leb_le in A0. apply Z.ltb_lt in A1. apply Z.eqb_eq in A2. split; [lia | exact A2]. }
  intros Hb. unfold Decoder._swap_nibbles_bytes. fold f. split.
  - apply Forall_map. eapply Forall_impl; [| exact Hb]. intros b H. apply P, H.
  - rewrite map_map. rewrite <- (map_id data) at 2. apply map_ext_Forall.
    eapply Forall_impl; [| exact Hb]. intros b H. apply P, H.
Qed.

Lemma swap_nibbles_involutive_witness :
  Forall is_byte (Decoder._swap_nibbles_bytes KNOWN_MAC_BYTES) /\
  Decoder._swap_nibbles_bytes (Decoder._swap_nibbles_bytes KNOWN_MAC_BYTES) = KNOWN_MAC_BYTES.
Proof. apply swap_nibbles_involutive. exact known_mac_bytes. Defined.

Lemma iter_map {X} (g : X -> X) (n : nat) (l : list X) :
  Nat.iter n (map g) l = map (Nat.iter n g) l.
Proof.
  induction n as [| n IH]; simpl; [symmetry; apply map_id |].
  rewrite IH, map_map. reflexivity.
Qed.

(** X11: [_rotl1_per_byte] maps bytes to bytes, and eight applications of
    it give the bytes back (each byte rotated a full turn). *)
Theorem rotl1_order8 (data : list Z) :
  Forall is_byte data ->
  Forall is_byte (Decoder._rotl1_per_byte data) /\
  Nat.iter 8 Decoder._rotl1_per_byte data = data.
Proof.
  set (f := fun b => Z.lor (Z.land (Z.shiftl b 1) 255) (Z.land (Z.shiftr b 7) 1)).
  assert (All : forallb (fun x => (0 <=? f x) && (f x <? 256) && (Nat.iter 8 f x =? x))
                  (map Z.of_nat (seq 0 256)) = true) by (vm_compute; reflexivity).
  rewrite forallb_forall in All.
  assert (P : forall b, is_byte b -> is_byte (f b) /\ Nat.iter 8 f b = b).
  { intros b Hb. unfold is_byte in *.
    assert (Hin : In b (map Z.of_nat (seq 0 256)))
      by (apply in_map_iff; exists (Z.to_nat b); split; [lia | apply in_seq; lia]).
    specialize (All b Hin). apply andb_prop in All as [A1 A2]. apply andb_prop in A1 as [A0 A1].
    apply Z.leb_le in A0. apply Z.ltb_lt in A1. apply Z.eqb_eq in A2. split; [lia | exact A2]. }
  intros Hb. split.
  - unfold Decoder._rotl1_per_byte. fold f.
    apply Forall_map. eapply Forall_impl; [| exact Hb]. intros b H. apply P, H.
  - change Decoder._rotl1_per_byte with (map f). rewrite iter_map.
    rewrite <- (map_id data) at 2. apply map_ext_Forall.
    eapply Forall_impl; [| exact Hb]. intros b H. apply P, H.
Qed.

Lemma rotl1_order8_witness :
  Forall is_byte (Decoder._rotl1_per_byte KNOWN_MAC_BYTES) /\
  Nat.iter 8 Decoder._rotl1_per_byte KNOWN_MAC_BYTES = KNOWN_MAC_BYTES.
Proof. apply rotl1_order8. exact known_mac_bytes. Defined.

(** ** Completed parses *)

Lemma sum_app1 (l : list Z) (x : Z) : Py.sum (l ++ [x]) = Py.sum l + x.
Proof. unfold Py.sum. induction l as [| y t IH]; simpl; lia. Qed.

Lemma complete_invariant (cp co ep eo : list Z) :
  length cp = 7%nat -> length co = 7%nat -> length ep = 11%nat -> length eo = 11%nat ->
  completed_invariant (Decoder.complete cp co ep eo).
Proof.
  intros L1 L2 L3 L4. unfold completed_invariant, Decoder.complete.
  rewrite !List.length_app, L1, L2, L3, L4, !sum_app1.
  repeat split; try reflexivity; try lia; Z.to_euclidean_division_equations; lia.
Qed.

Lemma fields_lengths (bits : Decoder.bitstr) (a b c d : nat) :
  let '(cp, co, ep, eo) := Decoder.fields bits a b c d in
  length cp = 7%nat /\ length co = 7%nat /\ length ep = 11%nat /\ length eo = 11%nat.
Proof. unfold Decoder.fields. rewrite !length_map, !length_seq. auto. Qed.

Lemma arrays_from_bitstr_invariant (bits : Decoder.bitstr) (sh : Z) (p : Decoder.arrays) :
  Decoder._parse_facelets_arrays_from_bitstr bits sh = Some p -> completed_invariant p.
Proof.
  unfold Decoder._parse_facelets_arrays_from_bitstr.
  destruct (_ || _ || _ || _); [discriminate |].
  destruct (_ <? _); [discriminate |].
  pose proof (fields_lengths bits (Z.to_nat (40 + sh)) (Z.to_nat (61 + sh))
                (Z.to_nat (77 + sh)) (Z.to_nat (121 + sh))) as FL.
  destruct (Decoder.fields _ _ _ _ _) as [[[cp co] ep] eo].
  destruct FL as (L1 & L2 & L3 & L4).
  destruct (_ || _ || _ || _); [discriminate |].
  pose proof (complete_invariant cp co ep eo L1 L2 L3 L4) as CI.
  destruct (Decoder.complete cp co ep eo) as [[[cp' co'] ep'] eo'].
  destruct (negb _); [discriminate |]. destruct (negb _); [discriminate |].
  destruct (negb _); [discriminate |]. destruct (negb _); [discriminate |].
  intros E. injection E as <-. exact CI.
Qed.

Lemma first_some_prop {X Y} (P : Y -> Prop) (f : X -> option Y) (l : list X) (y : Y) :
  (forall x y, f x = Some y -> P y) -> Decoder.first_some f l = Some y -> P y.
Proof.
  intros Hf. induction l as [| x t IH]; simpl; [discriminate |].
  destruct (f x) eqn:E; [intros H; injection H as <-; eapply Hf; exact E | exact IH].
Qed.

(** X12: whatever [_parse_facelets_with_variants] returns, a validated
    parse or the unvalidated default one, has arrays of lengths 8, 8, 12,
    12 whose derived last elements make the corner and edge permutation
    entries sum to 28 and 66, the corner twists sum to a multiple of 3 and
    the edge flips to an even number. *)
Theorem with_variants_completed (clear : list Z) :
  completed_invariant (Decoder._parse_facelets_with_variants clear).
Proof.
  unfold Decoder._parse_facelets_with_variants.
  destruct (Decoder.first_some _ _) as [p |] eqn:E.
  - revert E. apply first_some_prop. intros bits p1.
    apply first_some_prop. intros base p2.
    apply first_some_prop. intros j p3.
    apply arrays_from_bitstr_invariant.
  - unfold Decoder.default_unaligned.
    pose proof (fields_lengths (Decoder._bits_from_bytes clear) 40 61 77 121) as FL.
    destruct (Decoder.fields _ _ _ _ _) as [[[cp co] ep] eo].
    destruct FL as (L1 & L2 & L3 & L4). apply complete_invariant; assumption.
Qed.

(** X13: on a frame of at least 19 bytes with header 55 02, the headered
    parse is the generic parse of the frame's bit string at shift 0, and
    the canonical parse of the frame body (header removed) is the same
    parse. *)
Theorem headered_parse_is_shift0 (clear : list Z) :
  (19 <= length clear)%nat -> Decoder.is_header_55_02 clear = true ->
  Decoder._parse_facelets_headered clear =
    Decoder._parse_facelets_arrays_from_bitstr (Decoder._bits_from_bytes clear) 0 /\
  Decoder._parse_facelets_canonical (skipn 2 clear) = Decoder._parse_facelets_headered clear.
Proof.
  intros Hl Hh. split.
  - unfold Decoder._parse_facelets_headered, Decoder._parse_facelets_arrays_from_bitstr.
    replace (length clear <? 19)%nat with false by (symmetry; apply Nat.ltb_ge; lia).
    rewrite Hh. simpl (negb _). simpl (Z.to_nat _). cbv beta iota.
    replace (Z.of_nat (length (Decoder._bits_from_bytes clear)) <? 121 + 0 + 11) with false
      by (symmetry; apply Z.ltb_ge; rewrite bits_from_bytes_length; lia).
    simpl (orb _ _).
    destruct (Decoder.fields _ _ _ _ _) as [[[cp co] ep] eo].
    destruct (_ || _ || _ || _); [reflexivity |].
    destruct (Decoder.complete cp co ep eo) as [[[cp' co'] ep'] eo'].
    rewrite <- !andb_assoc, (set_eq_range_bounds cp' 8 7 eq_refl),
      (set_eq_range_bounds ep' 12 11 eq_refl).
    reflexivity.
  - destruct clear as [| a [| b body]]; simpl in Hl; try lia.
    unfold Decoder.is_header_55_02 in Hh. simpl in Hh.
    apply andb_prop in Hh as [Ha Hb]. apply Z.eqb_eq in Ha, Hb.
    apply canonical_body_headered; [lia | exact Ha | exact Hb].
Qed.

Lemma headered_parse_is_shift0_witness :
  Decoder._parse_facelets_headered solved_frame =
    Decoder._parse_facelets_arrays_from_bitstr (Decoder._bits_from_bytes solved_frame) 0 /\
  Decoder._parse_facelets_canonical (skipn 2 solved_frame) = Decoder._parse_facelets_headered solved_frame.
Proof.
  apply headered_parse_is_shift0.
  - vm_compute. lia.
  - vm_compute. reflexivity.
Defined.

(** ** The facelets string *)

Lemma getitem_in {X} (l : list X) (j : Z) :
  0 <= j < Z.of_nat (length l) -> exists x, Py.getitem l j = Some x /\ In x l.
Proof.
  intros H. unfold Py.getitem.
  replace ((0 <=? j) && (j <? Z.of_nat (length l))) with true
    by (symmetry; apply andb_true_intro; split; [apply Z.leb_le | apply Z.ltb_lt]; lia).
  destruct (nth_error l (Z.to_nat j)) as [x |] eqn:E.
  - exists x. split; [reflexivity | eapply nth_error_In; exact E].
  - apply nth_error_None in E. lia.
Qed.

Lemma setitem_length {X} (l : list X) (i : nat) (v : X) : length (Py.setitem l i v) = length l.
Proof. revert i. induction l as [| x t IH]; intros [| i]; simpl; auto. Qed.

Lemma setitem_Forall {X} (P : X -> Prop) (l : list X) (i : nat) (v : X) :
  P v -> Forall P l -> Forall P (Py.setitem l i v).
Proof.
  intros Hv Hl. revert i. induction Hl as [| x t Hx Ht IH]; intros [| i]; simpl;
  constructor; auto.
Qed.

Lemma pairs_in (n m i p : nat) : In (i, p) (Decoder.pairs n m) -> (i < n)%nat /\ (p < m)%nat.
Proof.
  unfold Decoder.pairs. intros H. apply in_flat_map in H as [i' [Hi H]].
  apply in_map_iff in H as [p' [E Hp]]. injection E as <- <-.
  apply in_seq in Hi, Hp. lia.
Qed.

Lemma place_ok (MAP : list (list Z)) (k : Z) (perm ori : list Z) (f : list ascii) (i p : nat) :
  Forall (fun row => length row = Z.to_nat k /\ Forall (fun v => 0 <= v < 54) row) MAP -> 0 < k ->
  length ori = length MAP -> length perm = length MAP ->
  Forall (fun x => 0 <= x < Z.of_nat (length MAP)) perm ->
  (i < length MAP)%nat -> (p < Z.to_nat k)%nat ->
  facelets_ok f -> exists f', Decoder.place MAP k perm ori f (i, p) = Some f' /\ facelets_ok f'.
Proof.
  intros HM Hk Lo Lp Hp Hi Hpk [Lf Ff]. unfold Decoder.place.
  destruct (getitem_in ori (Z.of_nat i) ltac:(lia)) as [o [Eo _]]. rewrite Eo. cbn [Decoder.obind].
  destruct (getitem_in MAP (Z.of_nat i) ltac:(lia)) as [row [Er Ir]]. rewrite Er. cbn [Decoder.obind].
  pose proof (proj1 (Forall_forall _ _) HM row Ir) as [Lr Vr].
  destruct (getitem_in row ((Z.of_nat p + o) mod k)) as [fi [Efi _]].
  { pose proof (Z.mod_pos_bound (Z.of_nat p + o) k Hk). lia. }
  rewrite Efi. cbn [Decoder.obind].
  destruct (getitem_in perm (Z.of_nat i) ltac:(lia)) as [pi [Epi Ipi]]. rewrite Epi. cbn [Decoder.obind].
  pose proof (proj1 (Forall_forall _ _) Hp pi Ipi) as Bpi. cbv beta in Bpi.
  destruct (getitem_in MAP pi ltac:(lia)) as [row' [Er' Ir']]. rewrite Er'. cbn [Decoder.obind].
  pose proof (proj1 (Forall_forall _ _) HM row' Ir') as [Lr' Vr'].
  destruct (getitem_in row' (Z.of_nat p) ltac:(lia)) as [v [Ev Iv]]. rewrite Ev. cbn [Decoder.obind].
  pose proof (proj1 (Forall_forall _ _) Vr' v Iv) as Bv. cbv beta in Bv.
  destruct (getitem_in Decoder._FACES_ORDER (v / 9)) as [face [Ef If]].
  { split; [apply Z.div_pos; lia | apply Z.div_lt_upper_bound; [lia | simpl; lia]]. }
  rewrite Ef. cbn [Decoder.obind].
  eexists. split; [reflexivity |]. split.
  - rewrite setitem_length. exact Lf.
  - apply setitem_Forall; assumption.
Qed.

Lemma fold_place_ok (step : list ascii -> nat * nat -> option (list ascii)) (l : list (nat * nat))
    (f0 : list ascii) :
  (forall ip f, In ip l -> facelets_ok f -> exists f', step f ip = Some f' /\ facelets_ok f') ->
  facelets_ok f0 ->
  exists f', fold_left (fun acc ip => Decoder.obind acc (fun f => step f ip)) l (Some f0) = Some f' /\
             facelets_ok f'.
Proof.
  revert f0. induction l as [| ip t IH]; intros f0 Hs H0; simpl; [eauto |].
  destruct (Hs ip f0 (or_introl eq_refl) H0) as [f1 [E1 H1]]. rewrite E1.
  apply IH; [intros ip' f Hin; apply Hs; right; exact Hin | exact H1].
Qed.

Lemma map_rows_ok (MAP : list (list Z)) (k : nat) :
  forallb (fun row => (length row =? k)%nat && forallb (fun v => (0 <=? v) && (v <? 54)) row) MAP = true ->
  Forall (fun row => length row = k /\ Forall (fun v => 0 <= v < 54) row) MAP.
Proof.
  intros H. apply Forall_forall. intros row Hr.
  pose proof (proj1 (forallb_forall _ _) H row Hr) as Hrow.
  apply andb_prop in Hrow as [L V]. split; [apply Nat.eqb_eq, L |].
  apply Forall_forall. intros v Hv. pose proof (proj1 (forallb_forall _ _) V v Hv) as Bv.
  apply andb_prop in Bv as [B1 B2]. apply Z.leb_le in B1. apply Z.ltb_lt in B2. lia.
Qed.

Lemma all_between_Forall (lo hi : Z) (l : list Z) :
  Decoder.all_between lo hi l = true -> Forall (fun x => lo <= x <= hi) l.
Proof.
  intros H. apply Forall_forall. intros x Hx. unfold Decoder.all_between in H.
  pose proof (proj1 (forallb_forall _ _) H x Hx) as Bx.
  apply andb_prop in Bx as [B1 B2]. apply Z.leb_le in B1. apply Z.leb_le in B2. lia.
Qed.

(** X14: for arrays of lengths 8, 8, 12, 12 whose permutation entries are
    indices of the facelet maps (cp in 0..7, ep in 0..11), with any
    orientation values, [_to_kociemba_facelets] raises no IndexError and
    returns a 54-character string of face letters U, R, F, D, L, B. *)
Theorem to_kociemba_facelets_ok (cp co ep eo : list Z) :
  length cp = 8%nat -> length co = 8%nat -> length ep = 12%nat -> length eo = 12%nat ->
  Decoder.all_between 0 7 cp = true -> Decoder.all_between 0 11 ep = true ->
  exists f, Decoder._to_kociemba_facelets (cp, co, ep, eo) = Some (string_of_list_ascii f) /\
            length f = 54%nat /\ Forall (fun c => In c Decoder._FACES_ORDER) f.
Proof.
  intros Lcp Lco Lep Leo Bcp Bep.
  assert (HC := map_rows_ok Decoder._CORNER_FACELET_MAP 3 eq_refl).
  assert (HE := map_rows_ok Decoder._EDGE_FACELET_MAP 2 eq_refl).
  assert (LC : length Decoder._CORNER_FACELET_MAP = 8%nat) by reflexivity.
  assert (LE : length Decoder._EDGE_FACELET_MAP = 12%nat) by reflexivity.
  assert (Init : facelets_ok (map (fun i => nth (i / 9) Decoder._FACES_ORDER "?"%char) (seq 0 54))).
  { split; [rewrite length_map, length_seq; reflexivity |].
    apply Forall_map, Forall_forall. intros i Hi. apply in_seq in Hi.
    apply nth_In. change (length Decoder._FACES_ORDER) with 6%nat.
    apply Nat.Div0.div_lt_upper_bound. lia. }
  assert (Hs1 : forall ip f, In ip (Decoder.pairs 8 3) -> facelets_ok f ->
                 exists f', Decoder.place Decoder._CORNER_FACELET_MAP 3 cp co f ip = Some f' /\ facelets_ok f').
  { intros [i p] f Hin Hf. apply pairs_in in Hin as [Hi Hp].
    apply place_ok; try assumption; try lia.
    apply Forall_impl with (P := fun x => 0 <= x <= 7); [intros x Hx; lia |].
    apply all_between_Forall. exact Bcp. }
  assert (Hs2 : forall ip f, In ip (Decoder.pairs 12 2) -> facelets_ok f ->
                 exists f', Decoder.place Decoder._EDGE_FACELET_MAP 2 ep eo f ip = Some f' /\ facelets_ok f').
  { intros [i p] f Hin Hf. apply pairs_in in Hin as [Hi Hp].
    apply place_ok; try assumption; try lia.
    apply Forall_impl with (P := fun x => 0 <= x <= 11); [intros x Hx; lia |].
    apply all_between_Forall. exact Bep. }
  unfold Decoder._to_kociemba_facelets.
  destruct (fold_place_ok _ _ _ Hs1 Init) as [fc [Ec Hc]]. rewrite Ec.
  destruct (fold_place_ok _ _ _ Hs2 Hc) as [fe [Ee He]].
  rewrite Ee. exists fe. destruct He as [L F]. auto.
Qed.

Lemma to_kociemba_facelets_ok_witness :
  exists f, Decoder._to_kociemba_facelets (Py.range 8, repeat 0 8, Py.range 12, repeat 0 12) =
              Some (string_of_list_ascii f) /\
            length f = 54%nat /\ Forall (fun c => In c Decoder._FACES_ORDER) f.
Proof.
  apply to_kociemba_facelets_ok; reflexivity.
Defined.

(** ** Tick arithmetic and the facelets-request rate limit *)

Lemma ticks_add_mod (a b : Z) : Session.ticks_add a b = (a + b) mod 1073741824.
Proof.
  unfold Session.ticks_add. change (Session.TICKS_PERIOD - 1) with (Z.ones 30).
  rewrite Z.land_ones by lia. reflexivity.
Qed.

Lemma ticks_diff_mod (a b : Z) :
  Session.ticks_diff a b = (a - b + 536870912) mod 1073741824 - 536870912.
Proof.
  unfold Session.ticks_diff. change (Session.TICKS_PERIOD - 1) with (Z.ones 30).
  change (Session.TICKS_PERIOD / 2) with 536870912.
  rewrite Z.land_ones by lia. reflexivity.
Qed.

(** X15: a call of [_schedule_facelets_poll] that passes the rate limit
    leaves at least one retry queued, and makes every call in the next
    250 ms (measured with wrapping ticks) a no-op, whatever its delay and
    the other globals then. *)
Theorem schedule_rate_limit (t0 delay delay' : Z) (e : Z) (g g' : Session.Globals) (d : Session.Dispatch) :
  0 <= Session.ticks_diff t0 (Session._facelets_rate_next_ms d) ->
  0 <= e < 250 ->
  let d1 := Session._schedule_facelets_poll t0 delay g d in
  1 <= Session._facelets_retry_count d1 /\
  Session._schedule_facelets_poll (Session.ticks_add t0 e) delay' g' d1 = d1.
Proof.
  intros Hr He d1.
  assert (Hd1 : Session._facelets_rate_next_ms d1 = Session.ticks_add t0 250).
  { unfold d1, Session._schedule_facelets_poll.
    replace (Session.ticks_diff t0 (Session._facelets_rate_next_ms d) <? 0) with false
      by (symmetry; apply Z.ltb_ge; exact Hr). reflexivity. }
  split.
  - unfold d1, Session._schedule_facelets_poll.
    replace (Session.ticks_diff t0 (Session._facelets_rate_next_ms d) <? 0) with false
      by (symmetry; apply Z.ltb_ge; exact Hr).
    cbn [Session._facelets_retry_count].
    destruct (Session._facelets_retry_count d <=? 0) eqn:E; [lia |]. apply Z.leb_gt in E. lia.
  - unfold Session._schedule_facelets_poll at 1. rewrite Hd1.
    replace (Session.ticks_diff (Session.ticks_add t0 e) (Session.ticks_add t0 250) <? 0) with true;
      [reflexivity |].
    symmetry. apply Z.ltb_lt. rewrite ticks_diff_mod, !ticks_add_mod.
    Z.to_euclidean_division_equations. lia.
Qed.

Lemma schedule_rate_limit_witness :
  let d1 := Session._schedule_facelets_poll 5000 150 connected_session (Session.dispatch connected_session) in
  1 <= Session._facelets_retry_count d1 /\
  Session._schedule_facelets_poll (Session.ticks_add 5000 249) 0 connected_session d1 = d1.
Proof.
  apply (schedule_rate_limit 5000 150 0 249 connected_session connected_session
           (Session.dispatch connected_session)).
  - vm_compute. discriminate.
  - lia.
Defined.

(** ** Alarm time *)

(** X22: [set_alarm_in] stores an hour in 0..23 and a minute in 0..59,
    the time of day [seconds] after now (modulo one day) truncated to the
    minute. *)
Theorem set_alarm_in_time (now_h now_m now_s seconds : Z) :
  let T := (now_h * 3600 + now_m * 60 + now_s + seconds) mod 86400 in
  let '(h, m) := Main.set_alarm_in now_h now_m now_s seconds in
  0 <= h < 24 /\ 0 <= m < 60 /\ h * 3600 + m * 60 = T - T mod 60.
Proof.
  intros T. unfold Main.set_alarm_in, Main.set_alarm. cbv zeta. fold T.
  assert (HT : 0 <= T < 86400) by (apply Z.mod_pos_bound; lia).
  clearbody T. Z.to_euclidean_division_equations. lia.
Qed.

(** ** The notification handler *)

(** The retry scheduler reads only [_ble_next_ok_ms] of the globals. *)
Lemma schedule_ble_next_ok (now delay : Z) (g g' : Session.Globals) (d : Session.Dispatch) :
  Session._ble_next_ok_ms g = Session._ble_next_ok_ms g' ->
  Session._schedule_facelets_poll now delay g d = Session._schedule_facelets_poll now delay g' d.
Proof. intros E. unfold Session._schedule_facelets_poll. rewrite E. reflexivity. Qed.

(** X16: [_on_notify] changes nothing and issues nothing for a
    notification from another connection handle, when no non-empty key and
    IV are set, or for a chunk shorter than 16 bytes. *)
Theorem on_notify_ignored (A : Cipher) (now h : Z) (data : list Z) (n : Main.Node) :
  (Session._conn (Main.globals n) <> Some h \/
   (forall key iv, Main._key n = Some key -> Main._iv n = Some iv ->
                   length key = 0%nat \/ length iv = 0%nat) \/
   (length data < 16)%nat) ->
  Main.on_notify A now h data n = (n, []).
Proof.
  intros H. unfold Main.on_notify.
  destruct (Session._conn (Main.globals n)) as [c |] eqn:Ec; [| reflexivity].
  destruct (c =? h) eqn:Ech; [| reflexivity]. apply Z.eqb_eq in Ech. subst c. simpl negb. cbv iota.
  destruct H as [H | [H | H]]; [congruence | |].
  - destruct (Main._key n) as [key |], (Main._iv n) as [iv |]; try reflexivity.
    destruct (H key iv eq_refl eq_refl) as [L | L]; rewrite L;
      [reflexivity | rewrite orb_true_r; reflexivity].
  - destruct (Main._key n) as [key |], (Main._iv n) as [iv |]; try reflexivity.
    destruct (_ || _); [reflexivity |].
    replace (length data <? 16)%nat with true by (symmetry; apply Nat.ltb_lt; exact H).
    reflexivity.
Qed.

Lemma on_notify_ignored_witness :
  Main.on_notify aes128 0 0 solved_frame idle_node = (idle_node, []).
Proof.
  apply on_notify_ignored. left. discriminate.
Defined.

(** X17: a frame that decrypts to a solved facelets state (at least 17
    bytes), while the alarm sounds and the last verdict was not "solved",
    stops the audio, stops polling and disconnects: the operations are the
    audio stop, a scan stop if polling, and the disconnect of the
    connection; afterwards the alarm is off, the verdict is "solved" and no
    connection or polling remains. *)
Theorem on_notify_solved_stops (A : Cipher) (now h : Z) (data key iv clear : list Z) (n : Main.Node) :
  Session._conn (Main.globals n) = Some h ->
  Main._key n = Some key -> Main._iv n = Some iv ->
  (0 < length key)%nat -> (0 < length iv)%nat ->
  Gan.decrypt_packet A data key iv = Some clear ->
  (17 <= length clear)%nat -> Decoder._is_solved_facelets clear = true ->
  Main._last_solved n <> Some true -> Main._alarm_on n = true -> Main._audio n = true ->
  snd (Main.on_notify A now h data n) =
    Main.AudioStop :: (if Session._polling (Main.globals n) then [Main.GapScanStop] else []) ++
                      [Main.GapDisconnect h] /\
  Main._alarm_on (fst (Main.on_notify A now h data n)) = false /\
  Main._last_solved (fst (Main.on_notify A now h data n)) = Some true /\
  Session._conn (Main.globals (fst (Main.on_notify A now h data n))) = None /\
  Session._polling (Main.globals (fst (Main.on_notify A now h data n))) = false.
Proof.
  intros Hc Hk Hv Lk Lv Hd Lc Hs Hl Ha Hau.
  assert (Ld : (length data <? 16)%nat = false).
  { destruct (length data <? 16)%nat eqn:E; [| reflexivity].
    unfold Gan.decrypt_packet in Hd. rewrite E in Hd. discriminate. }
  unfold Main.on_notify. rewrite Hc, Z.eqb_refl, Hk, Hv. simpl negb. cbv iota.
  replace ((length key =? 0)%nat || (length iv =? 0)%nat) with false
    by (symmetry; apply orb_false_iff; split; apply Nat.eqb_neq; lia).
  rewrite Ld, Hd.
  replace (17 <=? length clear)%nat with true by (symmetry; apply Nat.leb_le; exact Lc).
  rewrite Hs.
  replace (match Main._last_solved n with None => true | Some b => negb (Bool.eqb true b) end) with true
    by (destruct (Main._last_solved n) as [[|] |]; [congruence | reflexivity | reflexivity]).
  cbn [Main.set_last_solved Main._alarm_on Main._audio]. rewrite Ha, Hau. simpl andb. cbv iota.
  unfold Main.stop_cube_polling. cbn [Main.globals Main.set_alarm_on Main.set_last_solved].
  rewrite Hc.
  repeat match goal with |- context [if ?b then _ else _] => destruct b end;
    cbn; repeat split; reflexivity.
Qed.

Lemma on_notify_solved_stops_witness :
  snd (Main.on_notify aes128 5000 0 solved_frame alarm_node) =
    Main.AudioStop :: (if Session._polling (Main.globals alarm_node) then [Main.GapScanStop] else []) ++
                      [Main.GapDisconnect 0] /\
  Main._alarm_on (fst (Main.on_notify aes128 5000 0 solved_frame alarm_node)) = false /\
  Main._last_solved (fst (Main.on_notify aes128 5000 0 solved_frame alarm_node)) = Some true /\
  Session._conn (Main.globals (fst (Main.on_notify aes128 5000 0 solved_frame alarm_node))) = None /\
  Session._polling (Main.globals (fst (Main.on_notify aes128 5000 0 solved_frame alarm_node))) = false.
Proof.
  apply (on_notify_solved_stops aes128 5000 0 solved_frame known_key known_iv solved_frame alarm_node).
  - reflexivity.
  - reflexivity.
  - reflexivity.
  - vm_compute. lia.
  - vm_compute. lia.
  - vm_compute. reflexivity.
  - vm_compute. lia.
  - vm_compute. reflexivity.
  - discriminate.
  - reflexivity.
  - reflexivity.
Defined.

(** Case analysis over every test of a handler. *)
Ltac split_tests :=
  repeat match goal with
  | |- context [match ?x with Some _ => _ | None => _ end] => destruct x eqn:?
  | |- context [if ?b then _ else _] => destruct b eqn:?
  end.

(** X18: [_on_notify] issues an operation only on a change to "solved"
    while the alarm sounds with audio: the previous verdict was not
    "solved", the alarm was on and audio present, and afterwards the alarm
    is off and the verdict is "solved". *)
Theorem on_notify_ops_only_on_solve (A : Cipher) (now h : Z) (data : list Z) (n : Main.Node) :
  snd (Main.on_notify A now h data n) <> [] ->
  Main._last_solved n <> Some true /\ Main._alarm_on n = true /\ Main._audio n = true /\
  Main._alarm_on (fst (Main.on_notify A now h data n)) = false /\
  Main._last_solved (fst (Main.on_notify A now h data n)) = Some true.
Proof.
  unfold Main.on_notify, Main.stop_cube_polling.
  destruct (Main._last_solved n) as [[|] |] eqn:El;
  split_tests; cbn in *; try congruence;
  repeat match goal with H : (_ && _)%bool = true |- _ => apply andb_prop in H as [? ?] end;
  repeat split; congruence.
Qed.

Lemma on_notify_ops_only_on_solve_witness :
  Main._last_solved alarm_node <> Some true /\ Main._alarm_on alarm_node = true /\
  Main._audio alarm_node = true /\
  Main._alarm_on (fst (Main.on_notify aes128 5000 0 solved_frame alarm_node)) = false /\
  Main._last_solved (fst (Main.on_notify aes128 5000 0 solved_frame alarm_node)) = Some true.
Proof.
  apply on_notify_ops_only_on_solve. vm_compute. discriminate.
Defined.

(** X19: [_on_notify] never turns the alarm on, and never changes the
    key, the IV, the audio object, the CCCD and notification queues or
    [_last_facelets_ms] (its own assignment of that name only binds a
    local). *)
Theorem on_notify_preserves (A : Cipher) (now h : Z) (data : list Z) (n : Main.Node) :
  let n' := fst (Main.on_notify A now h data n) in
  (Main._alarm_on n' = true -> Main._alarm_on n = true) /\
  Main._key n' = Main._key n /\ Main._iv n' = Main._iv n /\ Main._audio n' = Main._audio n /\
  Session._cccd_queue (Main.globals n') = Session._cccd_queue (Main.globals n) /\
  Session._notify_queue (Main.globals n') = Session._notify_queue (Main.globals n) /\
  Session._last_facelets_ms (Session.dispatch (Main.globals n')) =
    Session._last_facelets_ms (Session.dispatch (Main.globals n)).
Proof.
  cbv zeta. unfold Main.on_notify, Main.stop_cube_polling.
  split_tests; cbn in *; repeat split; try reflexivity; try congruence;
  unfold Session._schedule_facelets_poll; split_tests; reflexivity.
Qed.

(** Boolean tests as propositions. *)
Ltac bools :=
  repeat match goal with
  | H : (_ && _)%bool = true |- _ => apply andb_prop in H as [? ?]
  | H : (_ && _)%bool = false |- _ => apply andb_false_iff in H as [? | ?]
  | H : (_ || _)%bool = true |- _ => apply orb_prop in H as [? | ?]
  | H : (_ || _)%bool = false |- _ => apply orb_false_iff in H as [? ?]
  | H : (_ =? _)%Z = true |- _ => apply Z.eqb_eq in H
  | H : (_ =? _)%Z = false |- _ => apply Z.eqb_neq in H
  | H : (_ =? _)%nat = true |- _ => apply Nat.eqb_eq in H
  | H : (_ =? _)%nat = false |- _ => apply Nat.eqb_neq in H
  | H : (_ <=? _)%nat = true |- _ => apply Nat.leb_le in H
  | H : (_ <=? _)%nat = false |- _ => apply Nat.leb_gt in H
  | H : (_ <? _)%nat = true |- _ => apply Nat.ltb_lt in H
  | H : (_ <? _)%nat = false |- _ => apply Nat.ltb_ge in H
  end.

(** X20: for a notification on the current connection with a key and IV
    set that decrypts to [clear], the retry state changes exactly as one
    [_schedule_facelets_poll(150)] at that time when [clear] is a move
    frame (at least 16 bytes, 0x55 then 0x02 with exactly 16 bytes, or
    0x55 then 0x01), and is left unchanged otherwise. *)
Theorem on_notify_move_schedules (A : Cipher) (now h : Z) (data key iv clear : list Z) (n : Main.Node) :
  Session._conn (Main.globals n) = Some h ->
  Main._key n = Some key -> Main._iv n = Some iv ->
  (0 < length key)%nat -> (0 < length iv)%nat ->
  Gan.decrypt_packet A data key iv = Some clear ->
  let move := (16 <= length clear)%nat /\ nth 0 clear 0 = 85 /\
              ((nth 1 clear 0 = 2 /\ length clear = 16%nat) \/ nth 1 clear 0 = 1) in
  (move -> Session.dispatch (Main.globals (fst (Main.on_notify A now h data n))) =
           Session._schedule_facelets_poll now 150 (Main.globals n) (Session.dispatch (Main.globals n))) /\
  (~ move -> Session.dispatch (Main.globals (fst (Main.on_notify A now h data n))) =
             Session.dispatch (Main.globals n)).
Proof.
  intros Hc Hk Hv Lk Lv Hd move.
  assert (Ld : (length data <? 16)%nat = false).
  { destruct (length data <? 16)%nat eqn:E; [| reflexivity].
    unfold Gan.decrypt_packet in Hd. rewrite E in Hd. discriminate. }
  unfold Main.on_notify. rewrite Hc, Z.eqb_refl, Hk, Hv. simpl negb. cbv iota.
  replace ((length key =? 0)%nat || (length iv =? 0)%nat) with false
    by (symmetry; apply orb_false_iff; split; apply Nat.eqb_neq; lia).
  rewrite Ld, Hd. unfold Main.stop_cube_polling.
  cbn [Main.globals Main.set_alarm_on Main.set_last_solved]. rewrite Hc.
  split_tests;
  cbn [fst snd Main.globals Main.with_globals Main.set_last_solved Main.set_alarm_on Main.set_link
       Session.set_dispatch Session.dispatch];
  split; intros M; unfold move in M; bools;
  try (apply schedule_ble_next_ok; reflexivity); try reflexivity; exfalso;
  try (destruct M as (M1 & M2 & [[M3 M4] | M3]); lia);
  apply M; (split; [lia | split; [lia | first [left; split; lia | right; lia]]]).
Qed.

Lemma on_notify_move_schedules_witness :
  let clear := 85 :: 2 :: repeat 0 14 in
  let move := (16 <= length clear)%nat /\ nth 0 clear 0 = 85 /\
              ((nth 1 clear 0 = 2 /\ length clear = 16%nat) \/ nth 1 clear 0 = 1) in
  (move -> Session.dispatch (Main.globals (fst (Main.on_notify aes128 5000 0 clear alarm_node))) =
           Session._schedule_facelets_poll 5000 150 (Main.globals alarm_node)
             (Session.dispatch (Main.globals alarm_node))) /\
  (~ move -> Session.dispatch (Main.globals (fst (Main.on_notify aes128 5000 0 clear alarm_node))) =
             Session.dispatch (Main.globals alarm_node)).
Proof.
  apply (on_notify_move_schedules aes128 5000 0 (85 :: 2 :: repeat 0 14) known_key known_iv
           (85 :: 2 :: repeat 0 14) alarm_node).
  - reflexivity.
  - reflexivity.
  - reflexivity.
  - vm_compute. lia.
  - vm_compute. lia.
  - vm_compute. reflexivity.
Defined.

(** ** Reconnection *)

(** X21: after the current connection drops and a new one is made, the
    CCCD queue and the notification queue of the old connection are still
    there (neither handler clears them), while the handle lists of the new
    connection start empty; polling is as it was. *)
Theorem reconnect_keeps_queues (h h' : Z) (addr : list Z) (n : Main.Node) :
  Session._conn (Main.globals n) = Some h ->
  let n2 := fst (Main.on_connect h' addr (fst (Main.on_disconnect h n))) in
  Session._conn (Main.globals n2) = Some h' /\
  Session._cccd_queue (Main.globals n2) = Session._cccd_queue (Main.globals n) /\
  Session._notify_queue (Main.globals n2) = Session._notify_queue (Main.globals n) /\
  Session._polling (Main.globals n2) = Session._polling (Main.globals n) /\
  Session._notify_handles (Main.globals n2) = [] /\ Session._cmd_handle (Main.globals n2) = None.
Proof.
  intros Hc n2. unfold n2, Main.on_connect, Main.on_disconnect, Session.on_disconnect.
  rewrite Hc, Z.eqb_refl. cbn.
  destruct (Gan.derive_key_iv_from_mac _) as [[k v] |]; cbn; repeat split.
Qed.

Lemma reconnect_keeps_queues_witness :
  let n2 := fst (Main.on_connect 1 KNOWN_MAC_BYTES (fst (Main.on_disconnect 0 alarm_node))) in
  Session._conn (Main.globals n2) = Some 1 /\
  Session._cccd_queue (Main.globals n2) = Session._cccd_queue (Main.globals alarm_node) /\
  Session._notify_queue (Main.globals n2) = Session._notify_queue (Main.globals alarm_node) /\
  Session._polling (Main.globals n2) = Session._polling (Main.globals alarm_node) /\
  Session._notify_handles (Main.globals n2) = [] /\ Session._cmd_handle (Main.globals n2) = None.
Proof. apply reconnect_keeps_queues. reflexivity. Defined.

(** ** The deferred facelets write *)

(** X23: the retry block attempts a write only on a live connection with
    a known command handle, a positive retry count, the retry time reached
    and no BLE cooldown pending. *)
Theorem retry_block_guard (now : Z) (w : Session.write_result) (g : Session.Globals) (d : Session.Dispatch) :
  snd (Session.retry_block now w g d) = true ->
  Session.is_some (Session._conn g) = true /\ Session.is_some (Session._cmd_handle g) = true /\
  0 < Session._facelets_retry_count d /\
  0 <= Session.ticks_diff now (Session._facelets_retry_next_ms d) /\
  (Session._ble_next_ok_ms g = 0 \/ 0 <= Session.ticks_diff now (Session._ble_next_ok_ms g)).
Proof.
  unfold Session.retry_block.
  destruct (Session.is_some (Session._conn g)) eqn:E1; [| discriminate].
  destruct (Session.is_some (Session._cmd_handle g)) eqn:E2; [| discriminate].
  destruct (0 <? Session._facelets_retry_count d) eqn:E3; [| discriminate].
  destruct (0 <=? Session.ticks_diff now (Session._facelets_retry_next_ms d)) eqn:E4; [| discriminate].
  destruct (negb (Session._ble_next_ok_ms g =? 0) &&
            (Session.ticks_diff now (Session._ble_next_ok_ms g) <? 0)) eqn:E5; [discriminate |].
  intros _. apply Z.ltb_lt in E3. apply Z.leb_le in E4.
  split; [reflexivity | split; [reflexivity | split; [exact E3 | split; [exact E4 |]]]].
  apply andb_false_iff in E5 as [E5 | E5].
  - left. apply negb_false_iff, Z.eqb_eq in E5. exact E5.
  - right. apply Z.ltb_ge in E5. exact E5.
Qed.

Lemma retry_block_guard_witness :
  Session.is_some (Session._conn connected_session) = true /\
  Session.is_some (Session._cmd_handle connected_session) = true /\
  0 < Session._facelets_retry_count (Session.dispatch connected_session) /\
  0 <= Session.ticks_diff 0 (Session._facelets_retry_next_ms (Session.dispatch connected_session)) /\
  (Session._ble_next_ok_ms connected_session = 0 \/
   0 <= Session.ticks_diff 0 (Session._ble_next_ok_ms connected_session)).
Proof.
  apply (retry_block_guard 0 Session.WriteOk connected_session (Session.dispatch connected_session)).
  vm_compute. reflexivity.
Defined.
